(** * Self-update pipeline of the codex CLI (codex-rs/cli/src/self_update.rs)

    A shallow embedding of the release discovery, version normalisation,
    asset selection, archive extraction and binary replacement code, and of
    the usage-limit tracker of codex-rs/core/src/limit_tracker.rs.
    Strings are Rocq strings (sequences of 8-bit characters), which is how
    Rust's [str] methods see a UTF-8 string: byte by byte. *)

From Stdlib Require Import Strings.String Strings.Ascii Sorting.Permutation Sorting.Sorted.
From Stdlib Require Import Lia.
From stdpp Require Import base gmap strings list.

Open Scope string_scope.

(* ------------------------------------------------------------------ *)
(** ** Rust [str] methods used by the module *)

Module Str.

(** [s.strip_prefix(p)] *)
Fixpoint strip_prefix (p s : string) : option string :=
  match p, s with
  | EmptyString, _ => Some s
  | String c p', String d s' => if Ascii.eqb c d then strip_prefix p' s' else None
  | String _ _, EmptyString => None
  end.

(** [s.starts_with(p)] *)
Definition starts_with (s p : string) : bool :=
  match strip_prefix p s with Some _ => true | None => false end.

(** The bytes of a string in reverse order. *)
Fixpoint rev (s : string) : string :=
  match s with
  | EmptyString => EmptyString
  | String c s' => String.append (rev s') (String c EmptyString)
  end.

(** [s.ends_with(p)]: the reversed bytes of [s] start with those of [p]. *)
Definition ends_with (s p : string) : bool :=
  starts_with (rev s) (rev p).

(** [s.contains(p)] for a string pattern *)
Fixpoint contains (s p : string) : bool :=
  starts_with s p ||
  match s with
  | EmptyString => false
  | String _ s' => contains s' p
  end.

(** [s.split(c).collect::<Vec<&str>>()] for a character pattern: the pieces
    between occurrences of [c]; an empty string gives one empty piece. *)
Fixpoint split (c : Ascii.ascii) (s : string) : list string :=
  match s with
  | EmptyString => [EmptyString]
  | String d s' =>
      match split c s' with
      | [] => []  (* never: [split] returns at least one piece *)
      | cur :: rest =>
          if Ascii.eqb c d then EmptyString :: cur :: rest
          else String d cur :: rest
      end
  end.

(** [s.split_once(c)] *)
Fixpoint split_once (c : Ascii.ascii) (s : string) : option (string * string) :=
  match s with
  | EmptyString => None
  | String d s' =>
      if Ascii.eqb c d then Some (EmptyString, s')
      else match split_once c s' with
           | Some (l, r) => Some (String d l, r)
           | None => None
           end
  end.

(** [s.rsplit_once(c)] *)
Definition rsplit_once (c : Ascii.ascii) (s : string) : option (string * string) :=
  match split_once c (rev s) with
  | Some (r_after, r_before) => Some (rev r_before, rev r_after)
  | None => None
  end.

End Str.

Definition slash : Ascii.ascii := "/"%char.

(* ------------------------------------------------------------------ *)
(** ** Errors of the module ([anyhow] errors, told apart by their cause) *)

Inductive update_error :=
| InvalidSourceFormat            (* "Repository must be in format 'owner/repo'" *)
| FetchError                     (* transport, status or JSON decode failure *)
| NoReleasesFound                (* "No releases found from any repository" *)
| UnsupportedAssetFormat (name : string)
| BinaryNotFoundInArchive        (* "Could not find suitable binary in ... archive" *)
| DecodeError                    (* zstd / gzip / tar / zip decoding failure *)
| IoError.                       (* std::fs or std::env failure *)

(* ------------------------------------------------------------------ *)
(** ** A state and error monad for the module's [Result]-returning code *)

Definition StM (S A : Type) : Type := S -> S * (update_error + A).

Definition ret {S A} (x : A) : StM S A := fun s => (s, inr x).
Definition bind {S A B} (m : StM S A) (k : A -> StM S B) : StM S B :=
  fun s => match m s with
           | (s', inr x) => k x s'
           | (s', inl e) => (s', inl e)
           end.
Definition throw {S A} (e : update_error) : StM S A := fun s => (s, inl e).

Notation "x <- m ;; k" := (bind m (fun x => k))
  (at level 100, m at next level, right associativity).

(** A [Result] of a sub-call, caught instead of propagated
    ([if let Ok(..)], [let _ = ..]). *)
Definition try_ {S A} (m : StM S A) : StM S (update_error + A) :=
  fun s => match m s with (s', r) => (s', inr r) end.

(** [expr?] on a [Result] value *)
Definition lift {S A} (r : update_error + A) : StM S A := fun s => (s, r).

(* ------------------------------------------------------------------ *)
(** ** [parse_repo_string] and [parse_version_from_tag] *)

(** [fn parse_repo_string(repo: &str) -> Result<(&str, &str)>] *)
Definition parse_repo_string (repo : string) : update_error + (string * string) :=
  let parts := Str.split slash repo in
  if negb (List.length parts =? 2)%nat then inl InvalidSourceFormat
  else
    match parts with
    | [owner; name] => inr (owner, name)
    | _ => inl InvalidSourceFormat  (* unreachable: length is 2 *)
    end.

(** [fn parse_version_from_tag(tag_name: &str) -> String] *)
Definition parse_version_from_tag (tag_name : string) : string :=
  match Str.strip_prefix "rust-v" tag_name with
  | Some rest => rest
  | None =>
      match Str.strip_prefix "v" tag_name with
      | Some rest => rest
      | None => tag_name
      end
  end.

(* ------------------------------------------------------------------ *)
(** ** Assets and [find_suitable_asset] *)

(** [pub struct GitHubAsset] *)
Record GitHubAsset := mkAsset {
  name : string;
  browser_download_url : string;
  size : N;  (* u64, unused by the logic *)
}.

(** [fn find_suitable_asset(assets: &[GitHubAsset], target_triple: &str)
      -> Option<&GitHubAsset>] *)
Definition preferred_extensions (target_triple : string) : list string :=
  if Str.contains target_triple "windows"
  then [".exe.zst"; ".exe.zip"; ".exe.tar.gz"]
  else [".zst"; ".tar.gz"].

Definition asset_matches (target_triple ext : string) (asset : GitHubAsset) : bool :=
  Str.contains (name asset) target_triple && Str.ends_with (name asset) ext.

Fixpoint try_extensions (assets : list GitHubAsset) (target_triple : string)
    (exts : list string) : option GitHubAsset :=
  match exts with
  | [] => None
  | ext :: exts' =>
      match List.find (asset_matches target_triple ext) assets with
      | Some asset => Some asset
      | None => try_extensions assets target_triple exts'
      end
  end.

Definition find_suitable_asset (assets : list GitHubAsset) (target_triple : string)
    : option GitHubAsset :=
  try_extensions assets target_triple (preferred_extensions target_triple).

(** Sample asset lists. *)
Definition linux_assets : list GitHubAsset :=
  [mkAsset "codex-x86_64-unknown-linux-musl.tar.gz" "https://example.invalid/a.tar.gz" 1;
   mkAsset "codex-x86_64-unknown-linux-musl.zst" "https://example.invalid/a.zst" 1].

Definition gnu_exe_assets : list GitHubAsset :=
  [mkAsset "codex-x86_64-unknown-linux-gnu.exe.zst" "https://example.invalid/b.exe.zst" 1].

(* ------------------------------------------------------------------ *)
(** ** The [semver] crate (version 1): [Version::parse] and [Ord for Version]

    An external crate used by [list_releases]; modelled after its
    documented grammar ([MAJOR.MINOR.PATCH[-PRE][+BUILD]]) and orderings. *)

Module Semver.

Definition is_ascii_digit (c : Ascii.ascii) : bool :=
  let n := Ascii.nat_of_ascii c in (48 <=? n)%nat && (n <=? 57)%nat.

Definition is_ident_char (c : Ascii.ascii) : bool :=
  let n := Ascii.nat_of_ascii c in
  is_ascii_digit c || ((65 <=? n)%nat && (n <=? 90)%nat) ||
  ((97 <=? n)%nat && (n <=? 122)%nat) || (n =? 45)%nat.

Fixpoint all_chars (f : Ascii.ascii -> bool) (s : string) : bool :=
  match s with
  | EmptyString => true
  | String c s' => f c && all_chars f s'
  end.

Fixpoint digits_value (acc : N) (s : string) : N :=
  match s with
  | EmptyString => acc
  | String c s' => digits_value (acc * 10 + N.of_nat (Ascii.nat_of_ascii c - 48)) s'
  end.

Definition u64_max : N := 18446744073709551615.

(** A numeric field: ASCII digits, no leading zero, at most [u64::MAX]. *)
Definition parse_numeric (s : string) : option N :=
  match s with
  | EmptyString => None
  | String c rest =>
      if negb (all_chars is_ascii_digit s) then None
      else if Ascii.eqb c "0"%char && negb (String.eqb rest EmptyString) then None
      else let v := digits_value 0 s in
           if (v <=? u64_max)%N then Some v else None
  end.

Definition has_leading_zero (s : string) : bool :=
  match s with
  | String c (String _ _) => Ascii.eqb c "0"%char
  | _ => false
  end.

(** A pre-release identifier: non-empty, [0-9A-Za-z-], and a numeric
    identifier has no leading zero. *)
Definition valid_pre_ident (s : string) : bool :=
  negb (String.eqb s EmptyString) && all_chars is_ident_char s &&
  negb (all_chars is_ascii_digit s && has_leading_zero s).

(** A build identifier: non-empty, [0-9A-Za-z-]. *)
Definition valid_build_ident (s : string) : bool :=
  negb (String.eqb s EmptyString) && all_chars is_ident_char s.

Record Version := mkVersion {
  major : N; minor : N; patch : N;
  pre : list string;    (* [Prerelease::EMPTY] is [] *)
  build : list string;  (* [BuildMetadata::EMPTY] is [] *)
}.

Definition parse_idents (valid : string -> bool) (s : string) : option (list string) :=
  let ids := Str.split "."%char s in
  if forallb valid ids then Some ids else None.

(** [semver::Version::parse] *)
Definition parse (s : string) : option Version :=
  let '(main, build_str) :=
    match Str.split_once "+"%char s with
    | Some (m, b) => (m, Some b)
    | None => (s, None)
    end in
  let '(core, pre_str) :=
    match Str.split_once "-"%char main with
    | Some (c, p) => (c, Some p)
    | None => (main, None)
    end in
  match Str.split "."%char core with
  | [smaj; smin; spat] =>
      match parse_numeric smaj, parse_numeric smin, parse_numeric spat with
      | Some maj, Some mi, Some pa =>
          let pre_r := match pre_str with
                       | Some p => parse_idents valid_pre_ident p
                       | None => Some [] end in
          let build_r := match build_str with
                         | Some b => parse_idents valid_build_ident b
                         | None => Some [] end in
          match pre_r, build_r with
          | Some pr, Some bu => Some (mkVersion maj mi pa pr bu)
          | _, _ => None
          end
      | _, _, _ => None
      end
  | _ => None
  end.

(** [Ordering::then_with] *)
Definition then_cmp (c : comparison) (k : comparison) : comparison :=
  match c with Eq => k | _ => c end.

Definition nat_cmp (a b : nat) : comparison := Nat.compare a b.

(** The identifier loop shared by [Ord for Prerelease] and
    [Ord for BuildMetadata]; [num_cmp] compares two all-digit identifiers. *)
Fixpoint cmp_idents (num_cmp : string -> string -> comparison)
    (lhs rhs : list string) : comparison :=
  match lhs, rhs with
  | [], [] => Eq
  | [], _ :: _ => Lt
  | _ :: _, [] => Gt
  | l :: lhs', r :: rhs' =>
      match all_chars is_ascii_digit l, all_chars is_ascii_digit r with
      | true, false => Lt
      | false, true => Gt
      | dl, _ =>
          let o := if dl then num_cmp l r else String.compare l r in
          match o with
          | Eq => cmp_idents num_cmp lhs' rhs'
          | _ => o
          end
      end
  end.

(** Pre-release numeric identifiers (no leading zeros): length, then bytes. *)
Definition pre_num_cmp (l r : string) : comparison :=
  then_cmp (nat_cmp (String.length l) (String.length r)) (String.compare l r).

(** [s.trim_start_matches('0')] *)
Fixpoint trim_zeros (s : string) : string :=
  match s with
  | String c s' => if Ascii.eqb c "0"%char then trim_zeros s' else s
  | EmptyString => EmptyString
  end.

(** Build numeric identifiers: [0 < 00 < 1 < 01 < 001 < 2 ...]. *)
Definition build_num_cmp (l r : string) : comparison :=
  let lv := trim_zeros l in
  let rv := trim_zeros r in
  then_cmp (nat_cmp (String.length lv) (String.length rv))
    (then_cmp (String.compare lv rv) (nat_cmp (String.length l) (String.length r))).

(** [Ord for Prerelease]: the empty pre-release is the greatest. *)
Definition cmp_pre (a b : list string) : comparison :=
  match a, b with
  | [], [] => Eq
  | [], _ => Gt
  | _, [] => Lt
  | _, _ => cmp_idents pre_num_cmp a b
  end.

Definition cmp_build (a b : list string) : comparison :=
  cmp_idents build_num_cmp a b.

(** [Ord for Version] (derived: fields in declaration order). *)
Definition cmp (a b : Version) : comparison :=
  then_cmp (N.compare (major a) (major b))
  (then_cmp (N.compare (minor a) (minor b))
  (then_cmp (N.compare (patch a) (patch b))
  (then_cmp (cmp_pre (pre a) (pre b))
            (cmp_build (build a) (build b))))).

End Semver.

(* ------------------------------------------------------------------ *)
(** ** Releases and their ordering *)

(** [pub struct Release]; [published_at] is a UTC timestamp (seconds). *)
Record Release := mkRelease {
  version : string;
  repo : string;
  is_prerelease : bool;
  published_at : Z;
  assets : list GitHubAsset;
  body : string;
}.

(** The comparator passed to [all_releases.sort_by] in [list_releases]. *)
Definition release_cmp (a b : Release) : comparison :=
  match Semver.parse (version a), Semver.parse (version b) with
  | Some v_a, Some v_b => Semver.cmp v_b v_a              (* descending *)
  | Some _, None => Lt                                    (* valid first *)
  | None, Some _ => Gt
  | None, None => CompOpp (String.compare (version a) (version b))
  end.

(** [slice::sort_by] is a stable sort; for a comparator that is a total
    preorder every stable sort yields the same list, so it is modelled by
    stable insertion sort: an element goes before the first element it is
    not greater than. *)
Fixpoint insert_by {A} (cmp : A -> A -> comparison) (x : A) (l : list A) : list A :=
  match l with
  | [] => [x]
  | y :: l' =>
      match cmp x y with
      | Gt => y :: insert_by cmp x l'
      | _ => x :: y :: l'
      end
  end.

Fixpoint sort_by {A} (cmp : A -> A -> comparison) (l : list A) : list A :=
  match l with
  | [] => []
  | x :: l' => insert_by cmp x (sort_by cmp l')
  end.

(** A release carrying only a version string, for examples. *)
Definition release_of_version (v : string) : Release :=
  mkRelease v "openai/codex" false 0 [] "".

(* ------------------------------------------------------------------ *)
(** ** [list_releases]

    The network is an oracle [net owner repo]: [Some releases] for a
    successful [fetch_releases_from_repo], [None] for a transport, status or
    decode failure.  The effects the function has besides its result are
    recorded: the repositories fetched, in order, and the lines printed to
    stderr. *)

Definition DEFAULT_REPO_OWNER : string := "iainlowe".
Definition DEFAULT_REPO_NAME : string := "codex".
Definition PRIMARY_REPO_OWNER : string := "openai".
Definition PRIMARY_REPO_NAME : string := "codex".

(** [struct GitHubRelease] *)
Record GitHubRelease := mkGitHubRelease {
  tag_name : string;
  gh_name : string;
  gh_body : string;
  draft : bool;
  prerelease : bool;
  gh_published_at : Z;
  gh_assets : list GitHubAsset;
}.

Record IOState := mkIOState {
  fetched : list (string * string);
  stderr : list string;
}.

Definition M (A : Type) : Type := StM IOState A.

Definition eprintln (line : string) : M unit :=
  fun s => (mkIOState (fetched s) (stderr s ++ [line])%list, inr tt).

Section ListReleases.
Variable net : string -> string -> option (list GitHubRelease).

(** [async fn fetch_releases_from_repo(client, user_agent, owner, repo)] *)
Definition fetch_releases_from_repo (owner repo : string) : M (list GitHubRelease) :=
  fun s =>
    let s' := mkIOState (fetched s ++ [(owner, repo)])%list (stderr s) in
    match net owner repo with
    | Some rs => (s', inr rs)
    | None => (s', inl FetchError)
    end.

Definition to_release (repo_label : string) (release : GitHubRelease) : Release :=
  mkRelease (parse_version_from_tag (tag_name release)) repo_label
    (prerelease release) (gh_published_at release) (gh_assets release)
    (gh_body release).

Definition primary_label : string :=
  PRIMARY_REPO_OWNER +:+ "/" +:+ PRIMARY_REPO_NAME.

Definition primary_warning : string :=
  "Warning: Could not fetch releases from " +:+ primary_label +:+
  " (API rate limit or network issue)".

(** [pub async fn list_releases(repo_override: Option<&str>)
      -> Result<Vec<Release>>] *)
Definition list_releases (repo_override : option string) : M (list Release) :=
  primary <- try_ (fetch_releases_from_repo PRIMARY_REPO_OWNER PRIMARY_REPO_NAME) ;;
  all_primary <-
    (match primary with
     | inr primary_releases => ret (map (to_release primary_label) primary_releases)
     | inl _ => _ <- eprintln primary_warning ;; ret []
     end) ;;
  owner_name <-
    (match repo_override with
     | Some r => lift (parse_repo_string r)
     | None => ret (DEFAULT_REPO_OWNER, DEFAULT_REPO_NAME)
     end) ;;
  let '(repo_owner, repo_name) := owner_name in
  all_releases <-
    (if negb (String.eqb repo_owner PRIMARY_REPO_OWNER) ||
        negb (String.eqb repo_name PRIMARY_REPO_NAME)
     then secondary_releases <- fetch_releases_from_repo repo_owner repo_name ;;
          ret (all_primary ++
               map (to_release (repo_owner +:+ "/" +:+ repo_name)) secondary_releases)%list
     else ret all_primary) ;;
  match all_releases with
  | [] => throw NoReleasesFound
  | _ => ret (sort_by release_cmp all_releases)
  end.

End ListReleases.

Definition empty_io : IOState := mkIOState [] [].

(** The secondary repository [list_releases] resolves from its argument. *)
Definition resolve_secondary (repo_override : option string)
    : update_error + (string * string) :=
  match repo_override with
  | Some r => parse_repo_string r
  | None => inr (DEFAULT_REPO_OWNER, DEFAULT_REPO_NAME)
  end.

(** The network with the primary repository answering an empty list. *)
Definition primary_answers_empty (net : string -> string -> option (list GitHubRelease))
    : string -> string -> option (list GitHubRelease) :=
  fun o r => if String.eqb o PRIMARY_REPO_OWNER && String.eqb r PRIMARY_REPO_NAME
             then Some [] else net o r.

(** A sample network: two primary releases, one in the default fork. *)
Definition sample_release (tag : string) : GitHubRelease :=
  mkGitHubRelease tag tag "" false false 0 [].

Definition sample_net (owner repo : string) : option (list GitHubRelease) :=
  if String.eqb owner PRIMARY_REPO_OWNER && String.eqb repo PRIMARY_REPO_NAME
  then Some [sample_release "rust-v0.26.0"; sample_release "rust-v0.28.0"]
  else if String.eqb owner DEFAULT_REPO_OWNER && String.eqb repo DEFAULT_REPO_NAME
  then Some [sample_release "v0.27.0"]
  else None.

(* ------------------------------------------------------------------ *)
(** ** Paths: [Path::file_name], [Path::with_extension], [OsStr::to_str] *)

Module PathM.

(** [Path::file_name] on a Unix path: the last component, where empty and
    ["."] components are not components; [None] when it is [".."] or there
    is none. *)
Definition file_name (p : string) : option string :=
  let comps := List.filter (fun c => negb (String.eqb c "") && negb (String.eqb c "."))
                 (Str.split slash p) in
  match List.last comps "" with
  | "" => None
  | ".." => None
  | c => Some c
  end.

(** [Path::file_stem] applied to a file name: the part before the last dot,
    unless that part is empty (a dot file has no extension). *)
Definition file_stem (fname : string) : string :=
  if String.eqb fname ".." then fname
  else match Str.rsplit_once "."%char fname with
       | Some (before, _) => if String.eqb before "" then fname else before
       | None => fname
       end.

(** The characters after the last normal component of a path, read from
    the end: trailing separators and trailing ["."] components, which
    [Path::components] does not yield. *)
Fixpoint strip_trailing_rev (fuel : nat) (r : list Ascii.ascii) : list Ascii.ascii :=
  match fuel with
  | O => r
  | S fuel' =>
      match r with
      | "/"%char :: rest => strip_trailing_rev fuel' rest
      | "."%char :: "/"%char :: rest => strip_trailing_rev fuel' rest
      | _ => r
      end
  end.

(** [path.with_extension(ext)] for a non-empty [ext]: the path is cut right
    after the file stem of its last normal component (dropping trailing
    separators and ["."] components and the old extension), then
    ["." ++ ext] is appended; a path without a file name (its last
    component is [".."], or it has none) is returned unchanged. *)
Definition with_extension (p ext : string) : string :=
  let q := string_of_list_ascii
             (rev (strip_trailing_rev (String.length p) (rev (list_ascii_of_string p)))) in
  let '(dir, fname) :=
    match Str.rsplit_once slash q with
    | Some (d, f) => (d +:+ "/", f)
    | None => ("", q)
    end in
  if String.eqb fname "" || String.eqb fname "." || String.eqb fname ".."
  then p
  else dir +:+ file_stem fname +:+ "." +:+ ext.

Definition byte_in (lo hi : nat) (c : Ascii.ascii) : bool :=
  let n := Ascii.nat_of_ascii c in (lo <=? n)%nat && (n <=? hi)%nat.

(** UTF-8 validity of a byte string: [OsStr::to_str] succeeds exactly on
    these. *)
Fixpoint utf8_valid_fuel (fuel : nat) (s : string) : bool :=
  match fuel with
  | O => false
  | S fuel =>
  match s with
  | EmptyString => true
  | String c s1 =>
      if byte_in 0 127 c then utf8_valid_fuel fuel s1
      else
        let cont := byte_in 128 191 in
        match s1 with
        | String c1 s2 =>
            if byte_in 194 223 c then cont c1 && utf8_valid_fuel fuel s2
            else
              match s2 with
              | String c2 s3 =>
                  let three (lo1 hi1 : nat) :=
                    byte_in lo1 hi1 c1 && cont c2 in
                  if (byte_in 224 224 c && three 160 191) ||
                     (byte_in 225 236 c && three 128 191) ||
                     (byte_in 237 237 c && three 128 159) ||
                     (byte_in 238 239 c && three 128 191)
                  then utf8_valid_fuel fuel s3
                  else
                    match s3 with
                    | String c3 s4 =>
                        let four (lo1 hi1 : nat) :=
                          byte_in lo1 hi1 c1 && cont c2 && cont c3 in
                        if (byte_in 240 240 c && four 144 191) ||
                           (byte_in 241 243 c && four 128 191) ||
                           (byte_in 244 244 c && four 128 143)
                        then utf8_valid_fuel fuel s4
                        else false
                    | EmptyString => false
                    end
              | EmptyString => false
              end
        | EmptyString => false
        end
  end
  end.

Definition to_str (s : string) : option string :=
  if utf8_valid_fuel (S (String.length s)) s then Some s else None.

End PathM.

(* ------------------------------------------------------------------ *)
(** ** The file system and [download_and_replace_binary]

    Files are a map from path to contents and permission bits; every
    file-system call that changes the map is logged.  The environment fixes
    the platform, the answers of the network and of [env::current_exe], the
    decoders of the [zstd], [flate2]/[tar] and [zip] crates, and which
    file-system calls fail. *)

Definition bytes : Type := list Byte.byte.

Record FileData := mkFile { contents : bytes; mode : N }.

(** Permission bits of a file [fs::write] creates (0o666 under umask 0o022). *)
Definition new_file_mode : N := 420.
(** [0o755] *)
Definition mode_0o755 : N := 493.

Inductive FsOp :=
| FsWrite (p : string)
| FsSetPermissions (p : string) (m : N)
| FsRename (src dst : string)
| FsRemove (p : string).

Record World := mkWorld { files : gmap string FileData; fs_log : list FsOp }.

(** How an [fs::write] fails: before the file is opened, or after it was
    created or truncated and the first [n] bytes were written. *)
Inductive WriteFault := FailAtOpen | FailAfter (n : nat).

(** A tar entry as the [tar] crate yields it: its path bytes and the result
    of [read_to_end]. *)
Record TarEntry := mkTarEntry { tar_path : string; tar_data : option bytes }.
(** A zip entry: its name ([ZipFile::name], a [&str]) and its data. *)
Record ZipEntry := mkZipEntry { zip_name : string; zip_data : option bytes }.

Inductive Platform := Unix | Windows.

Record Env := mkEnv {
  platform : Platform;
  download : string -> option bytes;               (* GET + error_for_status + bytes *)
  current_exe : option string;                     (* env::current_exe() *)
  zstd_decode_all : bytes -> option bytes;         (* zstd::decode_all *)
  tar_gz_entries : bytes -> list (option TarEntry);
    (* archive.entries() over a GzDecoder; [None]: an [entry?] or
       [entry.path()?] error, after which the loop stops *)
  zip_archive : bytes -> option (list (option ZipEntry));
    (* ZipArchive::new, then by_index(i) for i in 0..len *)
  write_fault : string -> option WriteFault;
  metadata_fails : string -> bool;
  set_permissions_fails : string -> bool;
  rename_fails : string -> string -> bool;
  remove_fails : string -> bool;
}.

Definition FsM (A : Type) : Type := StM World A.

Section Fs.
Variable env : Env.

Definition log_op (op : FsOp) (fs : gmap string FileData) (w : World) : World :=
  mkWorld fs (fs_log w ++ [op])%list.

(** [fs::write(path, data)]: create or truncate, then write; an existing
    file keeps its permission bits. *)
Definition fs_write (path : string) (data : bytes) : FsM unit :=
  fun w =>
    let m := match files w !! path with Some f => mode f | None => new_file_mode end in
    match write_fault env path with
    | Some FailAtOpen => (w, inl IoError)
    | Some (FailAfter n) =>
        (log_op (FsWrite path) (<[path := mkFile (firstn n data) m]> (files w)) w,
         inl IoError)
    | None => (log_op (FsWrite path) (<[path := mkFile data m]> (files w)) w, inr tt)
    end.

(** [fs::metadata(path)?.permissions()] *)
Definition fs_metadata (path : string) : FsM N :=
  fun w =>
    if metadata_fails env path then (w, inl IoError)
    else match files w !! path with
         | Some f => (w, inr (mode f))
         | None => (w, inl IoError)
         end.

(** [fs::set_permissions(path, perms)] *)
Definition fs_set_permissions (path : string) (m : N) : FsM unit :=
  fun w =>
    if set_permissions_fails env path then (w, inl IoError)
    else match files w !! path with
         | Some f => (log_op (FsSetPermissions path m)
                        (<[path := mkFile (contents f) m]> (files w)) w, inr tt)
         | None => (w, inl IoError)
         end.

(** [fs::rename(src, dst)]: replaces [dst]; renaming a path onto itself
    changes nothing. *)
Definition fs_rename (src dst : string) : FsM unit :=
  fun w =>
    if rename_fails env src dst then (w, inl IoError)
    else match files w !! src with
         | Some f =>
             if String.eqb src dst then (log_op (FsRename src dst) (files w) w, inr tt)
             else (log_op (FsRename src dst) (<[dst := f]> (delete src (files w))) w,
                   inr tt)
         | None => (w, inl IoError)
         end.

(** [fs::remove_file(path)] *)
Definition fs_remove_file (path : string) : FsM unit :=
  fun w =>
    if remove_fails env path then (w, inl IoError)
    else match files w !! path with
         | Some _ => (log_op (FsRemove path) (delete path (files w)) w, inr tt)
         | None => (w, inl IoError)
         end.

Definition opt_or {A} (e : update_error) (o : option A) : update_error + A :=
  match o with Some x => inr x | None => inl e end.

(** The test [extract_tar_gz] applies to a file name. *)
Definition tar_binary_name (filename_str : string) : bool :=
  String.eqb filename_str "codex" || Str.starts_with filename_str "codex-".

(** The loop of [extract_tar_gz] over [archive.entries()?]. *)
Fixpoint scan_tar (entries : list (option TarEntry)) (output_path : string) : FsM unit :=
  match entries with
  | [] => throw BinaryNotFoundInArchive
  | None :: _ => throw DecodeError
  | Some entry :: rest =>
      match PathM.file_name (tar_path entry) with
      | Some filename =>
          match PathM.to_str filename with
          | Some filename_str =>
              if tar_binary_name filename_str
              then buffer <- lift (opt_or DecodeError (tar_data entry)) ;;
                   fs_write output_path buffer
              else scan_tar rest output_path
          | None => scan_tar rest output_path
          end
      | None => scan_tar rest output_path
      end
  end.

(** [fn extract_tar_gz(bytes, output_path, _target_triple)] *)
Definition extract_tar_gz (bs : bytes) (output_path _target_triple : string) : FsM unit :=
  scan_tar (tar_gz_entries env bs) output_path.

(** The test [extract_zip] applies to the last ['/']-separated piece. *)
Definition zip_binary_name (filename : string) : bool :=
  String.eqb filename "codex.exe" || Str.starts_with filename "codex-".

(** The loop of [extract_zip] over [0..archive.len()]. *)
Fixpoint scan_zip (files_by_index : list (option ZipEntry)) (output_path : string)
    : FsM unit :=
  match files_by_index with
  | [] => throw BinaryNotFoundInArchive
  | None :: _ => throw DecodeError
  | Some file :: rest =>
      let filename := List.last (Str.split slash (zip_name file)) "" in
      if zip_binary_name filename
      then buffer <- lift (opt_or DecodeError (zip_data file)) ;;
           fs_write output_path buffer
      else scan_zip rest output_path
  end.

(** [fn extract_zip(bytes, output_path, _target_triple)] *)
Definition extract_zip (bs : bytes) (output_path _target_triple : string) : FsM unit :=
  archive <- lift (opt_or DecodeError (zip_archive env bs)) ;;
  scan_zip archive output_path.

(** Lines 250-263 of [download_and_replace_binary]: extract and write. *)
Definition extract_and_write (asset : GitHubAsset) (bs : bytes)
    (temp_path target_triple : string) : FsM unit :=
  if Str.ends_with (name asset) ".zst" then
    decompressed <- lift (opt_or DecodeError (zstd_decode_all env bs)) ;;
    fs_write temp_path decompressed
  else if Str.ends_with (name asset) ".tar.gz" then
    extract_tar_gz bs temp_path target_triple
  else if Str.ends_with (name asset) ".zip" then
    extract_zip bs temp_path target_triple
  else throw (UnsupportedAssetFormat (name asset)).

(** Lines 265-272: make executable ([#[cfg(unix)]] only). *)
Definition make_executable (temp_path : string) : FsM unit :=
  match platform env with
  | Unix => _perms <- fs_metadata temp_path ;;
            fs_set_permissions temp_path mode_0o755
  | Windows => ret tt
  end.

(** Lines 274-287: replace the executable ([#[cfg(windows)]] and
    [#[cfg(not(windows))]] blocks). *)
Definition replace_executable (current_exe temp_path : string) : FsM unit :=
  match platform env with
  | Windows =>
      let backup_path := PathM.with_extension current_exe "old" in
      _ <- fs_rename current_exe backup_path ;;
      _ <- fs_rename temp_path current_exe ;;
      _ <- try_ (fs_remove_file backup_path) ;;
      ret tt
  | Unix => fs_rename temp_path current_exe
  end.

(** [pub async fn download_and_replace_binary(asset, target_triple)] *)
Definition download_and_replace_binary (asset : GitHubAsset) (target_triple : string)
    : FsM unit :=
  bs <- lift (opt_or FetchError (download env (browser_download_url asset))) ;;
  exe <- lift (opt_or IoError (current_exe env)) ;;
  let temp_path := PathM.with_extension exe "tmp" in
  _ <- extract_and_write asset bs temp_path target_triple ;;
  _ <- make_executable temp_path ;;
  replace_executable exe temp_path.

End Fs.

(** Sample environments: every download answers one byte, [zstd] decoding
    is the identity, and only the given calls fail. *)
Definition sample_env (plat : Platform) (exe : string)
    (write_fault : string -> option WriteFault)
    (rename_fails : string -> string -> bool) : Env :=
  mkEnv plat (fun _ => Some [Byte.x01]) (Some exe) (fun b => Some b)
    (fun _ => []) (fun _ => None) write_fault (fun _ => false) (fun _ => false)
    rename_fails (fun _ => false).

(** A file system holding only the running executable. *)
Definition sample_world (exe : string) : World :=
  mkWorld {[ exe := mkFile [Byte.x00] mode_0o755 ]} [].

Definition zst_asset : GitHubAsset :=
  mkAsset "codex-x86_64-unknown-linux-musl.zst" "https://example.invalid/a.zst" 1.








(** Operations of the write-and-chmod phase. *)
Definition temp_op (temp : string) (op : FsOp) : Prop :=
  op = FsWrite temp \/ exists m, op = FsSetPermissions temp m.

(* ------------------------------------------------------------------ *)
(** ** [get_current_target_triple] *)

(** The compile-time configuration: [cfg(target_arch)], [cfg(target_os)],
    [cfg(target_env)]; [env::consts::ARCH] and [env::consts::OS] are the
    first two. *)
Record TargetCfg := mkTargetCfg {
  target_arch : string;
  target_os : string;
  target_env : string;
}.

(** [std::env::VarError] *)
Inductive VarError := NotPresent | NotUnicode.

(** [env::var(key)], where [var_os] gives the raw bytes of a variable:
    absent, or present but not valid UTF-8, is an error. *)
Definition env_var (var_os : string -> option string) (key : string)
    : VarError + string :=
  match var_os key with
  | None => inl NotPresent
  | Some v =>
      if PathM.utf8_valid_fuel (S (String.length v)) v then inr v else inl NotUnicode
  end.

(** The [unwrap_or_else] closure: the [#[cfg(..)]] blocks (their conditions
    exclude each other) and the generic [format!] fallback. *)
Definition fallback_target_triple (cfg : TargetCfg) : string :=
  let arch := target_arch cfg in
  let os := target_os cfg in
  let tenv := target_env cfg in
  if String.eqb arch "x86_64" && String.eqb os "linux" && String.eqb tenv "musl"
  then "x86_64-unknown-linux-musl"
  else if String.eqb arch "x86_64" && String.eqb os "linux" && String.eqb tenv "gnu"
  then "x86_64-unknown-linux-gnu"
  else if String.eqb arch "aarch64" && String.eqb os "linux" && String.eqb tenv "musl"
  then "aarch64-unknown-linux-musl"
  else if String.eqb arch "aarch64" && String.eqb os "linux" && String.eqb tenv "gnu"
  then "aarch64-unknown-linux-gnu"
  else if String.eqb arch "x86_64" && String.eqb os "macos"
  then "x86_64-apple-darwin"
  else if String.eqb arch "aarch64" && String.eqb os "macos"
  then "aarch64-apple-darwin"
  else if String.eqb arch "x86_64" && String.eqb os "windows"
  then "x86_64-pc-windows-msvc"
  else arch +:+ "-unknown-" +:+ os.

(** [pub fn get_current_target_triple() -> String] *)
Definition get_current_target_triple (var_os : string -> option string)
    (cfg : TargetCfg) : string :=
  match env_var var_os "CODEX_TARGET_TRIPLE" with
  | inr v => v
  | inl _ =>
      match env_var var_os "TARGET" with
      | inr v => v
      | inl _ => fallback_target_triple cfg
      end
  end.

(* ------------------------------------------------------------------ *)
(** ** [is_newer_version] and [print_releases_list] *)

(** [fn is_newer_version(version: &str, current: &str) -> bool] *)
Definition is_newer_version (version current : string) : bool :=
  match Semver.parse version, Semver.parse current with
  | Some v, Some c => match Semver.cmp v c with Gt => true | _ => false end
  | _, _ => false
  end.

Definition esc : string := String (Ascii.ascii_of_nat 27) EmptyString.
Definition newline : string := String (Ascii.ascii_of_nat 10) EmptyString.
Definition color_yellow : string := esc +:+ "[33m".
Definition color_green : string := esc +:+ "[32m".
Definition color_cyan : string := esc +:+ "[36m".
Definition color_white : string := esc +:+ "[37m".
Definition color_reset : string := esc +:+ "[0m".

Section PrintReleases.
(** [published_at.format("%Y-%m-%d")] *)
Variable format_date : Z -> string.

(** The [color] chosen for one release; [current_version] is
    [env!("CARGO_PKG_VERSION")]. *)
Definition release_color (current_version : string) (release : Release) : string :=
  if is_prerelease release then color_yellow
  else if is_newer_version (version release) current_version then color_green
  else if String.eqb (version release) current_version then color_cyan
  else color_white.

Definition release_line (current_version : string) (release : Release) : string :=
  let tag := if is_prerelease release then " (prerelease)" else "" in
  release_color current_version release +:+ "v" +:+ version release +:+ tag +:+
  " - " +:+ repo release +:+ " - " +:+ format_date (published_at release) +:+
  color_reset.

(** [pub fn print_releases_list(releases: &[Release])]: the arguments of its
    [println!] calls, in order (each is followed by a newline). *)
Definition print_releases_list (current_version : string) (releases : list Release)
    : list string :=
  ("Available releases (current: " +:+ current_version +:+ "):" +:+ newline) ::
  map (release_line current_version) releases.

End PrintReleases.

(* ================================================================== *)
(** * Usage-limit tracking (codex-rs/core/src/limit_tracker.rs)

    The limit file lives in a file system of byte strings.  The clock is an
    argument of every operation that reads it: [Some secs] for
    [SystemTime::now().duration_since(UNIX_EPOCH)] in whole seconds, [None]
    when the clock is before the epoch.  [serde_json::from_str::<LimitState>]
    is an oracle of the environment. *)

Module Limit.

(** [LIMIT_RETRY_DELAY.as_secs()]: five hours. *)
Definition LIMIT_RETRY_DELAY_SECS : N := 5 * 60 * 60.

Definition u64_modulus : N := 2 ^ 64.

(** [struct LimitState { hit_at: u64 }] *)
Record LimitState := mkLimitState { hit_at : N }.

(** [pub struct LimitTracker { limit_file: PathBuf }] *)
Record LimitTracker := mkLimitTracker { limit_file : string }.

(** [Path::join] on Unix: an absolute component replaces the base; otherwise
    a separator is added unless the base is empty or already ends in one. *)
Definition path_join (base p : string) : string :=
  if Str.starts_with p "/" then p
  else if String.eqb base "" || Str.ends_with base "/" then base +:+ p
  else base +:+ "/" +:+ p.

(** [LimitTracker::new(codex_home)] *)
Definition new (codex_home : string) : LimitTracker :=
  mkLimitTracker (path_join codex_home "limit").

(** Decimal digits of a number, as [serde_json] writes a [u64]. *)
Fixpoint decimal_aux (fuel : nat) (n : N) (acc : string) : string :=
  match fuel with
  | O => acc
  | S fuel' =>
      let acc' := String (Ascii.ascii_of_N (48 + n mod 10)) acc in
      if (n <? 10)%N then acc' else decimal_aux fuel' (n / 10) acc'
  end.

Definition u64_to_decimal (n : N) : string := decimal_aux 20 n "".

Definition dq : string := String (Ascii.ascii_of_nat 34) EmptyString.

(** [serde_json::to_string(&LimitState { hit_at })]: [{"hit_at":N}]. *)
Definition to_json (st : LimitState) : string :=
  "{" +:+ dq +:+ "hit_at" +:+ dq +:+ ":" +:+ u64_to_decimal (hit_at st) +:+ "}".

(** The [anyhow] errors of the module, told apart by their context. *)
Inductive limit_error :=
| TimeError     (* "Failed to get current time" *)
| WriteError    (* "Failed to write limit file" *)
| RemoveError   (* "Failed to remove limit file" *)
| ReadError     (* "Failed to read limit file" *)
| ParseError.   (* "Failed to parse limit file" *)

Record LWorld := mkLWorld { lfiles : gmap string string }.

Record LEnv := mkLEnv {
  stat_fails : string -> bool;             (* [fs::metadata] fails *)
  read_fails : string -> bool;             (* I/O error while reading *)
  lwrite_fault : string -> option WriteFault;
  lremove_fails : string -> bool;
  from_json : string -> option LimitState; (* [serde_json::from_str] *)
  overflow_checks : bool;                  (* [debug-assertions] build *)
}.

Section Tracker.
Variable env : LEnv.

(** [Path::exists]: [fs::metadata(path).is_ok()]. *)
Definition path_exists (p : string) (w : LWorld) : bool :=
  negb (stat_fails env p) &&
  match lfiles w !! p with Some _ => true | None => false end.

(** [u64 + u64]: a panic ([None]) with overflow checks, else wrapping. *)
Definition u64_add (a b : N) : option N :=
  if overflow_checks env && (u64_modulus <=? a + b)%N then None
  else Some ((a + b) mod u64_modulus)%N.

(** [pub fn record_limit_hit(&self) -> Result<()>] *)
Definition record_limit_hit (t : LimitTracker) (now : option N) (w : LWorld)
    : LWorld * (limit_error + unit) :=
  match now with
  | None => (w, inl TimeError)
  | Some secs =>
      let content := to_json (mkLimitState secs) in
      let f := limit_file t in
      match lwrite_fault env f with
      | Some FailAtOpen => (w, inl WriteError)
      | Some (FailAfter n) =>
          (mkLWorld (<[f := String.substring 0 n content]> (lfiles w)), inl WriteError)
      | None => (mkLWorld (<[f := content]> (lfiles w)), inr tt)
      end
  end.

(** [fn read_limit_state(&self) -> Result<Option<LimitState>>];
    [fs::read_to_string] fails on an I/O error or on bytes that are not
    UTF-8. *)
Definition read_limit_state (t : LimitTracker) (w : LWorld)
    : limit_error + option LimitState :=
  let f := limit_file t in
  if negb (path_exists f w) then inr None
  else match lfiles w !! f with
       | Some content =>
           if read_fails env f ||
              negb (PathM.utf8_valid_fuel (S (String.length content)) content)
           then inl ReadError
           else match from_json env content with
                | Some st => inr (Some st)
                | None => inl ParseError
                end
       | None => inl ReadError
       end.

(** [pub fn should_retry_chatgpt(&self) -> bool]; [None] is a panic of the
    overflow check of [state.hit_at + LIMIT_RETRY_DELAY.as_secs()]. *)
Definition should_retry_chatgpt (t : LimitTracker) (now : option N) (w : LWorld)
    : option bool :=
  match read_limit_state t w with
  | inr (Some state) =>
      let now_secs := match now with Some s => s | None => 0%N end in
      match u64_add (hit_at state) LIMIT_RETRY_DELAY_SECS with
      | Some limit => Some (limit <=? now_secs)%N
      | None => None
      end
  | _ => Some true
  end.

(** [pub fn clear_limit(&self) -> Result<()>] *)
Definition clear_limit (t : LimitTracker) (w : LWorld) : LWorld * (limit_error + unit) :=
  let f := limit_file t in
  if path_exists f w then
    if lremove_fails env f then (w, inl RemoveError)
    else (mkLWorld (delete f (lfiles w)), inr tt)
  else (w, inr tt).

(** [pub fn has_active_limit(&self) -> bool] *)
Definition has_active_limit (t : LimitTracker) (now : option N) (w : LWorld)
    : option bool :=
  option_map negb (should_retry_chatgpt t now w).

End Tracker.

(** A parser for exactly the text [to_json] writes, standing in for
    [serde_json] in examples. *)
Definition sample_from_json (s : string) : option LimitState :=
  match Str.strip_prefix ("{" +:+ dq +:+ "hit_at" +:+ dq +:+ ":") s with
  | Some rest =>
      match Str.strip_prefix "}" (Str.rev rest) with
      | Some rdigits =>
          match Semver.parse_numeric (Str.rev rdigits) with
          | Some n => Some (mkLimitState n)
          | None => None
          end
      | None => None
      end
  | None => None
  end.

(** An environment where no file operation fails. *)
Definition sample_lenv (checks : bool) : LEnv :=
  mkLEnv (fun _ => false) (fun _ => false) (fun _ => None) (fun _ => false)
    sample_from_json checks.

Definition empty_lworld : LWorld := mkLWorld ∅.

End Limit.

(* ================================================================== *)
(** * Proofs *)

(* ------------------------------------------------------------------ *)
(** ** Lemmas about the [str] methods *)

Module StrFacts.
Import Str.

(** Number of occurrences of a character in a string. *)
Fixpoint count_char (c : Ascii.ascii) (s : string) : nat :=
  match s with
  | EmptyString => 0
  | String d s' => (if Ascii.eqb c d then 1 else 0) + count_char c s'
  end.

Lemma split_ne_nil c s : split c s <> [].
Proof.
  induction s as [|d s IH]; simpl; [discriminate|].
  destruct (split c s); [contradiction|].
  destruct (Ascii.eqb c d); discriminate.
Qed.

Lemma split_length c s : List.length (split c s) = S (count_char c s).
Proof.
  induction s as [|d s IH]; simpl; [reflexivity|].
  destruct (split c s) as [|cur rest] eqn:E; [by destruct (split_ne_nil c s)|].
  simpl in IH. destruct (Ascii.eqb c d); simpl; lia.
Qed.

Lemma split_free c s : count_char c s = 0 -> split c s = [s].
Proof.
  induction s as [|d s IH]; simpl; [reflexivity|].
  destruct (Ascii.eqb c d); [discriminate|]. simpl. intros H.
  rewrite (IH H). reflexivity.
Qed.

Lemma split_sep c o r :
  count_char c o = 0 -> split c (String.append o (String c r)) = o :: split c r.
Proof.
  induction o as [|d o IH]; simpl; intros H.
  - destruct (split c r) as [|cur rest] eqn:E; [by destruct (split_ne_nil c r)|].
    rewrite Ascii.eqb_refl. reflexivity.
  - destruct (Ascii.eqb c d) eqn:Ecd; [discriminate|]. simpl in H.
    rewrite (IH H). reflexivity.
Qed.

(** Reading a split back: the string is the pieces joined by [c]. *)
Lemma split_cons c s o rest :
  split c s = o :: rest ->
  count_char c o = 0 /\
  (rest = [] /\ s = o \/
   exists r, s = String.append o (String c r) /\ split c r = rest).
Proof.
  revert o rest. induction s as [|d s IH]; simpl; intros o rest E.
  - injection E as <- <-. auto.
  - destruct (split c s) as [|cur rest'] eqn:Es; [discriminate|].
    destruct (Ascii.eqb c d) eqn:Ecd.
    + injection E as <- <-. split; [reflexivity|]. right. exists s.
      apply Ascii.eqb_eq in Ecd. subst d. auto.
    + injection E as <- <-. destruct (IH cur rest' eq_refl) as [Hf [[-> ->]|[r [-> Hr]]]].
      * simpl. rewrite Ecd. split; [exact Hf|]. left. auto.
      * simpl. rewrite Ecd. split; [exact Hf|]. right. exists r. auto.
Qed.

Lemma strip_prefix_app p s : strip_prefix p (String.append p s) = Some s.
Proof. induction p as [|c p IH]; simpl; [reflexivity|]. rewrite Ascii.eqb_refl. exact IH. Qed.

Lemma strip_prefix_Some p s r : strip_prefix p s = Some r -> s = String.append p r.
Proof.
  revert s. induction p as [|c p IH]; intros [|d s]; simpl; intros H;
    try (injection H as <-; reflexivity); try discriminate.
  destruct (Ascii.eqb c d) eqn:E; [|discriminate].
  apply Ascii.eqb_eq in E. subst d. exact (f_equal (String c) (IH s H)).
Qed.

Lemma append_nil_r s : String.append s EmptyString = s.
Proof. induction s as [|c s IH]; [reflexivity|]. exact (f_equal (String c) IH). Qed.

Lemma append_assoc a b c :
  String.append (String.append a b) c = String.append a (String.append b c).
Proof. induction a as [|d a IH]; [reflexivity|]. exact (f_equal (String d) IH). Qed.

Lemma rev_append a b : rev (String.append a b) = String.append (rev b) (rev a).
Proof.
  induction a as [|c a IH]; simpl.
  - rewrite append_nil_r. reflexivity.
  - rewrite IH, append_assoc. reflexivity.
Qed.

Lemma rev_involutive s : rev (rev s) = s.
Proof.
  induction s as [|c s IH]; [reflexivity|]. simpl.
  rewrite rev_append, IH. reflexivity.
Qed.

Lemma starts_with_iff s p : starts_with s p = true <-> exists r, s = String.append p r.
Proof.
  unfold starts_with. split.
  - destruct (strip_prefix p s) as [r|] eqn:E; [|discriminate].
    intros _. exists r. apply strip_prefix_Some, E.
  - intros [r ->]. rewrite strip_prefix_app. reflexivity.
Qed.

Lemma ends_with_iff s p : ends_with s p = true <-> exists pre, s = String.append pre p.
Proof.
  unfold ends_with. rewrite starts_with_iff. split.
  - intros [r Hr]. exists (rev r).
    rewrite <- (rev_involutive s), Hr, rev_append, rev_involutive. reflexivity.
  - intros [pre ->]. exists (rev pre). apply rev_append.
Qed.

(** Two prefixes of one string: one is a prefix of the other. *)
Lemma starts_with_both s p q :
  starts_with s p = true -> starts_with s q = true ->
  starts_with p q = true \/ starts_with q p = true.
Proof.
  rewrite !starts_with_iff. intros [r ->]. revert q r.
  induction p as [|c p IH]; intros q r [r' Hq].
  - right. exists q. reflexivity.
  - destruct q as [|d q].
    + left. exists (String c p). reflexivity.
    + simpl in Hq. injection Hq as <- Hq.
      destruct (IH q r (ex_intro _ r' Hq)) as [[x Hx]|[x Hx]].
      * left. exists x. simpl. rewrite Hx. reflexivity.
      * right. exists x. simpl. rewrite Hx. reflexivity.
Qed.

(** Two suffixes of one string: one is a suffix of the other. *)
Lemma ends_with_both s p q :
  ends_with s p = true -> ends_with s q = true ->
  ends_with p q = true \/ ends_with q p = true.
Proof. unfold ends_with. apply starts_with_both. Qed.

End StrFacts.

(** The unit tests of the module. *)
Example test_parse_version_from_tag :
  parse_version_from_tag "rust-v0.27.0" = "0.27.0" /\
  parse_version_from_tag "v0.27.0" = "0.27.0" /\
  parse_version_from_tag "0.27.0" = "0.27.0" /\
  parse_version_from_tag "rust-v0.27.0-alpha.1" = "0.27.0-alpha.1".
Proof. repeat split; reflexivity. Qed.

Example test_parse_repo_string :
  parse_repo_string "owner/repo" = inr ("owner", "repo") /\
  parse_repo_string "invalid" = inl InvalidSourceFormat /\
  parse_repo_string "too/many/parts" = inl InvalidSourceFormat.
Proof. repeat split; reflexivity. Qed.


(* ------------------------------------------------------------------ *)
(** ** Version normalisation and source parsing *)

(** C6: normalisation strips at most one prefix, ["rust-v"] first, else
    ["v"], else nothing; so for a tag [T] without a recognised prefix,
    ["rust-v" ++ T], ["v" ++ T] and [T] all normalise to [T]. *)
Theorem parse_version_from_tag_strips_once (T : string)
  (HT1 : Str.starts_with T "rust-v" = false)
  (HT2 : Str.starts_with T "v" = false) :
  (forall tag,
     (exists r, tag = "rust-v" +:+ r /\ parse_version_from_tag tag = r) \/
     (Str.starts_with tag "rust-v" = false /\
      exists r, tag = "v" +:+ r /\ parse_version_from_tag tag = r) \/
     (Str.starts_with tag "rust-v" = false /\ Str.starts_with tag "v" = false /\
      parse_version_from_tag tag = tag)) /\
  parse_version_from_tag ("rust-v" +:+ T) = T /\
  parse_version_from_tag ("v" +:+ T) = T /\
  parse_version_from_tag T = T.
Proof.
  unfold Str.starts_with in HT1, HT2. split; [|split; [|split]].
  - intros tag. unfold parse_version_from_tag, Str.starts_with.
    destruct (Str.strip_prefix "rust-v" tag) as [r|] eqn:E1.
    + left. exists r. split; [apply StrFacts.strip_prefix_Some, E1|reflexivity].
    + right. destruct (Str.strip_prefix "v" tag) as [r|] eqn:E2.
      * left. split; [reflexivity|]. exists r.
        split; [apply StrFacts.strip_prefix_Some, E2|reflexivity].
      * right. auto.
  - unfold parse_version_from_tag. rewrite StrFacts.strip_prefix_app. reflexivity.
  - unfold parse_version_from_tag. rewrite StrFacts.strip_prefix_app. reflexivity.
  - unfold parse_version_from_tag.
    destruct (Str.strip_prefix "rust-v" T); [discriminate|].
    destruct (Str.strip_prefix "v" T); [discriminate|]. reflexivity.
Qed.

Lemma parse_version_from_tag_strips_once_witness :
  Str.starts_with "0.27.0" "rust-v" = false /\ Str.starts_with "0.27.0" "v" = false /\
  parse_version_from_tag ("rust-v" +:+ "0.27.0") = "0.27.0".
Proof.
  split; [reflexivity|]. split; [reflexivity|].
  apply (parse_version_from_tag_strips_once "0.27.0"); reflexivity.
Defined.

(** C2 (as the code has it): parsing an ["owner/project"] override succeeds
    exactly when the string contains exactly one ['/'], and returns the text
    before and after it, in order, whether or not either is empty; every
    other string fails with [InvalidSourceFormat]. *)
Theorem parse_repo_string_one_slash (repo : string) :
  match parse_repo_string repo with
  | inr (owner, name) =>
      repo = owner +:+ String slash name /\
      StrFacts.count_char slash owner = 0 /\ StrFacts.count_char slash name = 0
  | inl e => e = InvalidSourceFormat /\ StrFacts.count_char slash repo <> 1
  end /\
  (StrFacts.count_char slash repo = 1 ->
   exists owner name, parse_repo_string repo = inr (owner, name)) /\
  (forall owner name,
     StrFacts.count_char slash owner = 0 -> StrFacts.count_char slash name = 0 ->
     parse_repo_string (owner +:+ String slash name) = inr (owner, name)).
Proof.
  pose proof (StrFacts.split_length slash repo) as Hlen.
  unfold parse_repo_string. split; [|split].
  - destruct (Str.split slash repo) as [|o [|n [|x rest]]] eqn:E; simpl in *.
    + split; [reflexivity|lia].
    + split; [reflexivity|lia].
    + destruct (StrFacts.split_cons _ _ _ _ E) as [Ho [[? _]|[r [Hr Er]]]];
        [discriminate|].
      destruct (StrFacts.split_cons _ _ _ _ Er) as [Hn [[_ ->]|[r' [_ Er']]]].
      * auto.
      * destruct (StrFacts.split_ne_nil slash r'); exact Er'.
    + split; [reflexivity|lia].
  - intros H1. rewrite H1 in Hlen.
    destruct (Str.split slash repo) as [|o [|n [|x rest]]]; simpl in *; try lia.
    eauto.
  - intros owner name Ho Hn.
    rewrite (StrFacts.split_sep _ _ _ Ho), (StrFacts.split_free _ _ Hn).
    reflexivity.
Qed.

(** C2 (as the spec states it) fails: ["/codex"] splits into an empty owner
    and ["codex"], and is accepted. *)
Lemma parse_repo_string_accepts_empty_owner :
  parse_repo_string "/codex" = inr ("", "codex") /\
  ~ (exists owner name, Str.split slash "/codex" = [owner; name] /\
                        owner <> "" /\ name <> "").
Proof.
  split; [reflexivity|].
  intros (o & n & E & Ho & _). simpl in E. injection E as <- _. apply Ho; reflexivity.
Qed.

(* ------------------------------------------------------------------ *)
(** ** Asset selection *)

Section FindFacts.
Context {A : Type} (f : A -> bool).

Lemma find_first (l : list A) (a : A) :
  List.find f l = Some a ->
  exists before after, l = (before ++ a :: after)%list /\ f a = true /\
    forall b, In b before -> f b = false.
Proof.
  induction l as [|x l IH]; simpl; [discriminate|].
  destruct (f x) eqn:Ex.
  - intros [= <-]. exists [], l. split; [reflexivity|]. split; [exact Ex|].
    intros b [].
  - intros H. destruct (IH H) as (before & after & -> & Ha & Hb).
    exists (x :: before), after. split; [reflexivity|]. split; [exact Ha|].
    intros b [<-|Hin]; auto.
Qed.

Lemma find_None_iff (l : list A) :
  List.find f l = None <-> forall b, In b l -> f b = false.
Proof.
  split; [apply List.find_none|].
  induction l as [|x l IH]; simpl; intros H; [reflexivity|].
  rewrite (H x (or_introl eq_refl)). apply IH. auto.
Qed.

End FindFacts.

Lemma try_extensions_first assets t exts a :
  try_extensions assets t exts = Some a ->
  exists pre ext post, exts = (pre ++ ext :: post)%list /\
    (forall e b, In e pre -> In b assets -> asset_matches t e b = false) /\
    exists before after, assets = (before ++ a :: after)%list /\
      asset_matches t ext a = true /\
      forall b, In b before -> asset_matches t ext b = false.
Proof.
  induction exts as [|ext exts IH]; simpl; [discriminate|].
  destruct (List.find (asset_matches t ext) assets) as [a'|] eqn:E.
  - intros [= <-]. exists [], ext, exts. split; [reflexivity|].
    split; [intros e b []|]. apply find_first, E.
  - intros H. destruct (IH H) as (pre & ext' & post & -> & Hpre & Hrest).
    exists (ext :: pre), ext', post. split; [reflexivity|]. split; [|exact Hrest].
    intros e b [<-|Hin] Hb; [|auto].
    exact (proj1 (find_None_iff _ _) E b Hb).
Qed.

Lemma try_extensions_None assets t exts :
  try_extensions assets t exts = None <->
  forall e b, In e exts -> In b assets -> asset_matches t e b = false.
Proof.
  induction exts as [|ext exts IH]; simpl.
  - split; [intros _ e b []|reflexivity].
  - destruct (List.find (asset_matches t ext) assets) as [a'|] eqn:E.
    + split; [discriminate|]. intros H.
      destruct (find_first _ _ _ E) as (before & after & Hl & Ha & _).
      rewrite (H ext a') in Ha; [discriminate|left; reflexivity|].
      rewrite Hl. apply in_or_app. right. left. reflexivity.
    + rewrite IH. split.
      * intros H e b [<-|Hin] Hb; [|auto]. exact (proj1 (find_None_iff _ _) E b Hb).
      * auto.
Qed.

(** C3: [find_suitable_asset] tries the suffixes in priority order
    ([".exe.zst"; ".exe.zip"; ".exe.tar.gz"] for Windows-like targets,
    [".zst"; ".tar.gz"] otherwise) and, for the first suffix that some asset
    matches, returns the first asset in list order whose name contains the
    target token and ends with that suffix; it returns [None] exactly when no
    suffix/asset pair matches.  On the two Linux assets it picks the [.zst]. *)
Theorem find_suitable_asset_priority (assets : list GitHubAsset) (t : string) :
  preferred_extensions t =
    (if Str.contains t "windows" then [".exe.zst"; ".exe.zip"; ".exe.tar.gz"]
     else [".zst"; ".tar.gz"]) /\
  (forall a, find_suitable_asset assets t = Some a ->
     exists pre ext post, preferred_extensions t = (pre ++ ext :: post)%list /\
       (forall e b, In e pre -> In b assets ->
          ~ (Str.contains (name b) t = true /\ Str.ends_with (name b) e = true)) /\
       exists before after, assets = (before ++ a :: after)%list /\
         Str.contains (name a) t = true /\ Str.ends_with (name a) ext = true /\
         forall b, In b before ->
           ~ (Str.contains (name b) t = true /\ Str.ends_with (name b) ext = true)) /\
  (find_suitable_asset assets t = None <->
     forall e b, In e (preferred_extensions t) -> In b assets ->
       ~ (Str.contains (name b) t = true /\ Str.ends_with (name b) e = true)) /\
  find_suitable_asset linux_assets "x86_64-unknown-linux-musl" =
    Some (mkAsset "codex-x86_64-unknown-linux-musl.zst" "https://example.invalid/a.zst" 1).
Proof.
  assert (Hm : forall e b, asset_matches t e b = false <->
            ~ (Str.contains (name b) t = true /\ Str.ends_with (name b) e = true)).
  { intros e b. unfold asset_matches.
    destruct (Str.contains (name b) t), (Str.ends_with (name b) e);
      simpl; intuition congruence. }
  split; [reflexivity|]. split; [|split; [|reflexivity]].
  - intros a H. destruct (try_extensions_first _ _ _ _ H)
      as (pre & ext & post & Hx & Hpre & before & after & Hl & Ha & Hb).
    exists pre, ext, post. split; [exact Hx|]. split.
    + intros e b He Hb'. apply Hm. auto.
    + exists before, after. split; [exact Hl|].
      unfold asset_matches in Ha. apply andb_prop in Ha as [Ha1 Ha2].
      split; [exact Ha1|]. split; [exact Ha2|].
      intros b Hin. apply Hm. auto.
  - unfold find_suitable_asset. rewrite try_extensions_None. split.
    + intros H e b He Hb. apply Hm. auto.
    + intros H e b He Hb. apply Hm. auto.
Qed.

(** The Windows-like test of [find_suitable_asset] is the substring test. *)
Lemma preferred_extensions_windows t :
  Str.contains t "windows" = true ->
  preferred_extensions t = [".exe.zst"; ".exe.zip"; ".exe.tar.gz"].
Proof. unfold preferred_extensions. intros ->. reflexivity. Qed.

(** C10 (as the code has it): a target is Windows-like exactly when it
    contains ["windows"]; for any other target the selected asset, if any,
    contains the target token and ends in [".zst"] or [".tar.gz"], hence never
    in [".zip"]. *)
Theorem find_suitable_asset_non_windows (assets : list GitHubAsset) (t : string)
  (a : GitHubAsset)
  (Ht : Str.contains t "windows" = false)
  (Ha : find_suitable_asset assets t = Some a) :
  preferred_extensions t = [".zst"; ".tar.gz"] /\
  In a assets /\
  Str.contains (name a) t = true /\
  (Str.ends_with (name a) ".zst" = true \/ Str.ends_with (name a) ".tar.gz" = true) /\
  Str.ends_with (name a) ".zip" = false.
Proof.
  assert (Hx : preferred_extensions t = [".zst"; ".tar.gz"])
    by (unfold preferred_extensions; rewrite Ht; reflexivity).
  unfold find_suitable_asset in Ha. rewrite Hx in Ha.
  destruct (try_extensions_first _ _ _ _ Ha)
    as (pre & ext & post & Hl & _ & before & after & Has & Hm & _).
  unfold asset_matches in Hm. apply andb_prop in Hm as [Hc He].
  assert (Hext : ext = ".zst" \/ ext = ".tar.gz").
  { assert (Hin : In ext [".zst"; ".tar.gz"]) by (rewrite Hl; apply in_or_app; right; left; reflexivity).
    destruct Hin as [<-|[<-|[]]]; auto. }
  split; [exact Hx|]. split; [rewrite Has; apply in_or_app; right; left; reflexivity|].
  split; [exact Hc|].
  split; [destruct Hext as [->| ->]; auto|].
  destruct (Str.ends_with (name a) ".zip") eqn:Ez; [|reflexivity].
  destruct Hext as [->| ->];
    destruct (StrFacts.ends_with_both _ _ _ He Ez) as [H|H]; discriminate H.
Qed.

Lemma find_suitable_asset_non_windows_witness :
  Str.contains "x86_64-unknown-linux-musl" "windows" = false /\
  find_suitable_asset linux_assets "x86_64-unknown-linux-musl" =
    Some (mkAsset "codex-x86_64-unknown-linux-musl.zst" "https://example.invalid/a.zst" 1) /\
  Str.ends_with "codex-x86_64-unknown-linux-musl.zst" ".zip" = false.
Proof.
  split; [reflexivity|]. split; [reflexivity|].
  exact (proj2 (proj2 (proj2 (proj2 (find_suitable_asset_non_windows linux_assets
    "x86_64-unknown-linux-musl"
    (mkAsset "codex-x86_64-unknown-linux-musl.zst" "https://example.invalid/a.zst" 1)
    eq_refl eq_refl))))).
Defined.

(** C10 (as the spec states it) fails: on a Linux target, an asset named
    ["codex-x86_64-unknown-linux-gnu.exe.zst"], the only one containing the
    target token, is an [".exe.*"] asset and is returned. *)
Lemma find_suitable_asset_returns_exe_zst_on_linux :
  Str.contains "x86_64-unknown-linux-gnu" "windows" = false /\
  find_suitable_asset gnu_exe_assets "x86_64-unknown-linux-gnu" =
    Some (mkAsset "codex-x86_64-unknown-linux-gnu.exe.zst" "https://example.invalid/b.exe.zst" 1) /\
  Str.contains "codex-x86_64-unknown-linux-gnu.exe.zst" ".exe." = true.
Proof. split; [reflexivity|]. split; reflexivity. Qed.

(* ------------------------------------------------------------------ *)
(** ** The release ordering *)

Module SemverFacts.
Import Semver.

Lemma then_cmp_opp c k : CompOpp (then_cmp c k) = then_cmp (CompOpp c) (CompOpp k).
Proof. destruct c; reflexivity. Qed.

Lemma nat_cmp_antisym a b : nat_cmp a b = CompOpp (nat_cmp b a).
Proof. apply Nat.compare_antisym. Qed.

Lemma cmp_idents_antisym f :
  (forall l r, f l r = CompOpp (f r l)) ->
  forall a b, cmp_idents f a b = CompOpp (cmp_idents f b a).
Proof.
  intros Hf a. induction a as [|l a IH]; intros [|r b]; simpl; try reflexivity.
  destruct (all_chars is_ascii_digit l), (all_chars is_ascii_digit r);
    try reflexivity.
  - rewrite (Hf l r). destruct (f r l); simpl; auto.
  - rewrite (String.compare_antisym l r).
    destruct (String.compare r l); simpl; auto.
Qed.

Lemma pre_num_cmp_antisym l r : pre_num_cmp l r = CompOpp (pre_num_cmp r l).
Proof.
  unfold pre_num_cmp. rewrite then_cmp_opp, <- nat_cmp_antisym,
    <- String.compare_antisym. reflexivity.
Qed.

Lemma build_num_cmp_antisym l r : build_num_cmp l r = CompOpp (build_num_cmp r l).
Proof.
  unfold build_num_cmp. rewrite !then_cmp_opp, <- !nat_cmp_antisym,
    <- String.compare_antisym. reflexivity.
Qed.

Lemma cmp_pre_antisym a b : cmp_pre a b = CompOpp (cmp_pre b a).
Proof.
  destruct a as [|x a], b as [|y b]; try reflexivity.
  unfold cmp_pre. apply cmp_idents_antisym, pre_num_cmp_antisym.
Qed.

Lemma cmp_antisym a b : cmp a b = CompOpp (cmp b a).
Proof.
  unfold cmp. rewrite !then_cmp_opp, <- !N.compare_antisym, <- cmp_pre_antisym.
  unfold cmp_build. rewrite <- (cmp_idents_antisym _ build_num_cmp_antisym).
  reflexivity.
Qed.

End SemverFacts.

Lemma release_cmp_antisym a b : release_cmp a b = CompOpp (release_cmp b a).
Proof.
  unfold release_cmp.
  destruct (Semver.parse (version a)), (Semver.parse (version b)); try reflexivity.
  - apply SemverFacts.cmp_antisym.
  - rewrite String.compare_antisym, CompOpp_involutive. reflexivity.
Qed.

Section SortBy.
Context {A : Type} (cmp : A -> A -> comparison)
  (cmp_antisym : forall a b, cmp a b = CompOpp (cmp b a)).

Definition le_by (a b : A) : Prop := cmp a b <> Gt.

Lemma insert_by_perm x l : Permutation (x :: l) (insert_by cmp x l).
Proof.
  induction l as [|y l IH]; simpl; [reflexivity|].
  destruct (cmp x y); try reflexivity.
  rewrite perm_swap. constructor. exact IH.
Qed.

Lemma sort_by_perm l : Permutation l (sort_by cmp l).
Proof.
  induction l as [|x l IH]; simpl; [reflexivity|].
  rewrite <- insert_by_perm. constructor. exact IH.
Qed.

Lemma insert_by_sorted x l : Sorted le_by l -> Sorted le_by (insert_by cmp x l).
Proof.
  induction 1 as [|y l Hs IH Hhd]; simpl.
  - repeat constructor.
  - destruct (cmp x y) eqn:E.
    + constructor; [constructor; auto|]. constructor. unfold le_by. congruence.
    + constructor; [constructor; auto|]. constructor. unfold le_by. congruence.
    + constructor; [exact IH|].
      assert (Hyx : le_by y x) by (unfold le_by; rewrite cmp_antisym, E; discriminate).
      destruct l as [|z l]; simpl; [constructor; exact Hyx|].
      inversion Hhd; subst.
      destruct (cmp x z); constructor; auto.
Qed.

Lemma sort_by_sorted l : Sorted le_by (sort_by cmp l).
Proof. induction l; simpl; [constructor|]. apply insert_by_sorted. assumption. Qed.

End SortBy.

(** C1: the comparator of [list_releases] orders two valid semantic versions
    in descending semantic order, puts a valid version before an invalid one,
    and orders two invalid versions by reverse byte-wise string order; sorting
    with it permutes the list into a sorted one, and sorts
    ["0.26.0"; "0.28.0"; "not-a-version"; "0.27.0"] into
    ["0.28.0"; "0.27.0"; "0.26.0"; "not-a-version"]. *)
Theorem release_ordering (a b : Release) :
  (forall v_a v_b,
     Semver.parse (version a) = Some v_a -> Semver.parse (version b) = Some v_b ->
     release_cmp a b = Semver.cmp v_b v_a) /\
  (forall v_a,
     Semver.parse (version a) = Some v_a -> Semver.parse (version b) = None ->
     release_cmp a b = Lt /\ release_cmp b a = Gt) /\
  (Semver.parse (version a) = None -> Semver.parse (version b) = None ->
     release_cmp a b = String.compare (version b) (version a)) /\
  (forall l : list Release,
     Permutation l (sort_by release_cmp l) /\
     Sorted (le_by release_cmp) (sort_by release_cmp l)) /\
  map version (sort_by release_cmp
    (map release_of_version ["0.26.0"; "0.28.0"; "not-a-version"; "0.27.0"])) =
    ["0.28.0"; "0.27.0"; "0.26.0"; "not-a-version"].
Proof.
  unfold release_cmp. split; [|split; [|split; [|split]]].
  - intros v_a v_b -> ->. reflexivity.
  - intros v_a -> ->. split; reflexivity.
  - intros -> ->. rewrite String.compare_antisym, CompOpp_involutive. reflexivity.
  - intros l. split; [apply sort_by_perm|apply sort_by_sorted, release_cmp_antisym].
  - vm_compute. reflexivity.
Qed.

(* ------------------------------------------------------------------ *)
(** ** Release discovery *)

Ltac run_list_releases :=
  unfold list_releases, bind, try_, ret, lift, throw, eprintln,
    fetch_releases_from_repo, resolve_secondary, primary_answers_empty,
    PRIMARY_REPO_OWNER, PRIMARY_REPO_NAME, DEFAULT_REPO_OWNER, DEFAULT_REPO_NAME in *.

(** C5: a failed fetch of the primary repository only prints a warning and
    contributes nothing (the outcome is the one of a primary answering an
    empty list); a failed fetch of a secondary repository distinct from the
    primary makes the whole call fail; and a secondary equal to the primary
    is not fetched, so the result is a permutation of the primary's releases
    alone. *)
Theorem list_releases_source_policy
    (net : string -> string -> option (list GitHubRelease))
    (repo_override : option string) (s : IOState) :
  (net PRIMARY_REPO_OWNER PRIMARY_REPO_NAME = None ->
     snd (list_releases net repo_override s) =
       snd (list_releases (primary_answers_empty net) repo_override s) /\
     In primary_warning (stderr (fst (list_releases net repo_override s)))) /\
  (forall owner name,
     resolve_secondary repo_override = inr (owner, name) ->
     (owner, name) <> (PRIMARY_REPO_OWNER, PRIMARY_REPO_NAME) ->
     net owner name = None ->
     snd (list_releases net repo_override s) = inl FetchError) /\
  (resolve_secondary repo_override = inr (PRIMARY_REPO_OWNER, PRIMARY_REPO_NAME) ->
     fetched (fst (list_releases net repo_override s)) =
       (fetched s ++ [(PRIMARY_REPO_OWNER, PRIMARY_REPO_NAME)])%list /\
     forall releases, snd (list_releases net repo_override s) = inr releases ->
       Permutation releases
         (map (to_release primary_label)
            (match net PRIMARY_REPO_OWNER PRIMARY_REPO_NAME with
             | Some rs => rs | None => [] end))).
Proof.
  split; [|split].
  - intros Hp. run_list_releases. rewrite Hp. simpl.
    split.
    + destruct repo_override as [r|]; simpl;
        [destruct (parse_repo_string r) as [e|[o n]]; simpl; [reflexivity|]|].
      * destruct (String.eqb o "openai") eqn:Eo, (String.eqb n "codex") eqn:En;
          simpl; try reflexivity;
          rewrite ?Eo, ?En; simpl; destruct (net o n) as [l|]; simpl; try reflexivity;
          destruct (map (to_release (o +:+ "/" +:+ n)) l); reflexivity.
      * destruct (net "iainlowe" "codex") as [l|]; simpl; try reflexivity.
        destruct (map (to_release ("iainlowe" +:+ "/" +:+ "codex")) l); reflexivity.
    + destruct repo_override as [r|]; simpl;
        [destruct (parse_repo_string r) as [e|[o n]]; simpl|].
      * apply in_or_app. right. left. reflexivity.
      * destruct (String.eqb o "openai"), (String.eqb n "codex"); simpl;
          [|destruct (net o n) as [[|x l]|]..]; simpl;
          apply in_or_app; right; left; reflexivity.
      * destruct (net "iainlowe" "codex") as [[|x l]|]; simpl;
          apply in_or_app; right; left; reflexivity.
  - intros owner name Hr Hne Hn. run_list_releases.
    assert (Hb : (negb (String.eqb owner "openai") || negb (String.eqb name "codex"))%bool
                 = true).
    { destruct (String.eqb owner "openai") eqn:Eo, (String.eqb name "codex") eqn:En;
        try reflexivity.
      apply String.eqb_eq in Eo, En. subst. exfalso. apply Hne. reflexivity. }
    destruct (net "openai" "codex"); simpl;
      (destruct repo_override as [r|]; simpl in Hr |- *;
       [rewrite Hr|injection Hr as <- <-]); simpl; rewrite ?Hb, Hn; reflexivity.
  - intros Hr. run_list_releases.
    destruct (net "openai" "codex") as [rs|]; simpl;
      (destruct repo_override as [r|]; simpl in Hr |- *;
       [rewrite Hr|discriminate Hr]); simpl.
    + destruct (map (to_release primary_label) rs) as [|x l]; simpl.
      * split; [reflexivity|]. discriminate.
      * split; [reflexivity|]. intros releases [= <-].
        symmetry. apply (sort_by_perm release_cmp (x :: l)).
    + split; [reflexivity|]. discriminate.
Qed.

Lemma insert_by_ne_nil {A} (cmp : A -> A -> comparison) x l : insert_by cmp x l <> [].
Proof. destruct l; simpl; [discriminate|]. destruct (cmp x a); discriminate. Qed.

(** C9: a successful [list_releases] never returns an empty list. *)
Theorem list_releases_ok_nonempty
    (net : string -> string -> option (list GitHubRelease))
    (repo_override : option string) (s : IOState) (releases : list Release)
    (Hok : snd (list_releases net repo_override s) = inr releases) :
  releases <> [].
Proof.
  run_list_releases. simpl in Hok.
  repeat (match type of Hok with context [match ?x with _ => _ end] => destruct x end;
          simpl in Hok); try discriminate Hok;
    injection Hok as <-; simpl; apply insert_by_ne_nil.
Qed.

Lemma list_releases_ok_nonempty_witness :
  snd (list_releases sample_net None empty_io) =
    inr (map (to_release primary_label) [sample_release "rust-v0.28.0"] ++
         map (to_release "iainlowe/codex") [sample_release "v0.27.0"] ++
         map (to_release primary_label) [sample_release "rust-v0.26.0"])%list /\
  (map (to_release primary_label) [sample_release "rust-v0.28.0"] ++
   map (to_release "iainlowe/codex") [sample_release "v0.27.0"] ++
   map (to_release primary_label) [sample_release "rust-v0.26.0"])%list <> [].
Proof.
  assert (H : snd (list_releases sample_net None empty_io) =
    inr (map (to_release primary_label) [sample_release "rust-v0.28.0"] ++
         map (to_release "iainlowe/codex") [sample_release "v0.27.0"] ++
         map (to_release primary_label) [sample_release "rust-v0.26.0"])%list)
    by (vm_compute; reflexivity).
  split; [exact H|].
  exact (list_releases_ok_nonempty sample_net None empty_io _ H).
Defined.

(* ------------------------------------------------------------------ *)
(** ** Frame properties of the file-system code *)

Module Frames.

(** Whether an operation can change the file at path [p]. *)
Definition op_touches (p : string) (op : FsOp) : bool :=
  match op with
  | FsWrite q => String.eqb p q
  | FsSetPermissions q _ => String.eqb p q
  | FsRename src dst => String.eqb p src || String.eqb p dst
  | FsRemove q => String.eqb p q
  end.

(** From [w] to [w'] the log grew by operations satisfying [P], and every
    path no logged operation touches holds the same file. *)
Definition steps (P : FsOp -> Prop) (w w' : World) : Prop :=
  exists ops, fs_log w' = (fs_log w ++ ops)%list /\ Forall P ops /\
    forall p, Forall (fun op => op_touches p op = false) ops ->
      files w' !! p = files w !! p.

Definition frames {A} (P : FsOp -> Prop) (m : FsM A) : Prop :=
  forall w, steps P w (fst (m w)).

Lemma steps_refl P w : steps P w w.
Proof. exists []. rewrite app_nil_r. split; [reflexivity|]. split; auto. Qed.

Lemma steps_trans P w1 w2 w3 : steps P w1 w2 -> steps P w2 w3 -> steps P w1 w3.
Proof.
  intros (o1 & L1 & F1 & H1) (o2 & L2 & F2 & H2). exists (o1 ++ o2)%list.
  split; [rewrite L2, L1, app_assoc; reflexivity|].
  split; [apply Forall_app; auto|].
  intros p Hp. apply Forall_app in Hp as [Hp1 Hp2]. rewrite H2, H1; auto.
Qed.

Lemma steps_one (P : FsOp -> Prop) op w fs :
  P op -> (forall p, op_touches p op = false -> fs !! p = files w !! p) ->
  steps P w (log_op op fs w).
Proof.
  intros HP Hf. exists [op]. split; [reflexivity|]. split; [constructor; auto|].
  intros p Hp. inversion Hp; subst. apply Hf. assumption.
Qed.

Lemma frames_ret {A} P (x : A) : frames P (ret x).
Proof. intros w. apply steps_refl. Qed.

Lemma frames_throw {A} P e : frames P (@throw World A e).
Proof. intros w. apply steps_refl. Qed.

Lemma frames_lift {A} P (r : update_error + A) : frames P (lift r).
Proof. intros w. apply steps_refl. Qed.

Lemma frames_bind {A B} P (m : FsM A) (k : A -> FsM B) :
  frames P m -> (forall x, frames P (k x)) -> frames P (bind m k).
Proof.
  intros Hm Hk w. unfold bind. specialize (Hm w).
  destruct (m w) as [w1 [e|x]] eqn:E; simpl in *; [exact Hm|].
  eapply steps_trans; [exact Hm|]. apply Hk.
Qed.

Lemma frames_try {A} P (m : FsM A) : frames P m -> frames P (try_ m).
Proof. intros Hm w. specialize (Hm w). unfold try_. destruct (m w); exact Hm. Qed.

Lemma frames_weaken {A} (P Q : FsOp -> Prop) (m : FsM A) :
  (forall op, P op -> Q op) -> frames P m -> frames Q m.
Proof.
  intros HPQ Hm w. destruct (Hm w) as (ops & L & F & H).
  exists ops. split; [exact L|]. split; [|exact H].
  eapply Forall_impl; [exact F|exact HPQ].
Qed.

Ltac ne_from_touch Hp :=
  simpl in Hp; repeat rewrite orb_false_iff in Hp;
  repeat match type of Hp with _ /\ _ => destruct Hp as [? Hp] end;
  repeat match goal with
         | H : String.eqb _ _ = false |- _ => apply String.eqb_neq in H
         end.

Section Prims.
Variable env : Env.

Lemma frames_write (P : FsOp -> Prop) p d : P (FsWrite p) -> frames P (fs_write env p d).
Proof.
  intros HP w. unfold fs_write.
  destruct (write_fault env p) as [[|n]|]; simpl;
    [apply steps_refl| |]; apply steps_one; auto;
    intros q Hq; ne_from_touch Hq; rewrite lookup_insert_ne; congruence.
Qed.

Lemma frames_metadata P p : frames P (fs_metadata env p).
Proof.
  intros w. unfold fs_metadata.
  destruct (metadata_fails env p); [apply steps_refl|].
  destruct (files w !! p); apply steps_refl.
Qed.

Lemma frames_set_permissions (P : FsOp -> Prop) p m :
  P (FsSetPermissions p m) -> frames P (fs_set_permissions env p m).
Proof.
  intros HP w. unfold fs_set_permissions.
  destruct (set_permissions_fails env p); [apply steps_refl|].
  destruct (files w !! p); simpl; [|apply steps_refl].
  apply steps_one; auto. intros q Hq; ne_from_touch Hq.
  rewrite lookup_insert_ne; congruence.
Qed.

Lemma frames_rename (P : FsOp -> Prop) src dst :
  P (FsRename src dst) -> frames P (fs_rename env src dst).
Proof.
  intros HP w. unfold fs_rename.
  destruct (rename_fails env src dst); [apply steps_refl|].
  destruct (files w !! src); simpl; [|apply steps_refl].
  destruct (String.eqb src dst); simpl; apply steps_one; auto.
  intros q Hq; ne_from_touch Hq.
  rewrite lookup_insert_ne, lookup_delete_ne; congruence.
Qed.

Lemma frames_remove (P : FsOp -> Prop) p : P (FsRemove p) -> frames P (fs_remove_file env p).
Proof.
  intros HP w. unfold fs_remove_file.
  destruct (remove_fails env p); [apply steps_refl|].
  destruct (files w !! p); simpl; [|apply steps_refl].
  apply steps_one; auto. intros q Hq; ne_from_touch Hq.
  rewrite lookup_delete_ne; congruence.
Qed.

Lemma frames_scan_tar (P : FsOp -> Prop) entries out :
  P (FsWrite out) -> frames P (scan_tar env entries out).
Proof.
  intros HP. induction entries as [|[e|] rest IH]; simpl.
  - apply frames_throw.
  - destruct (PathM.file_name (tar_path e)) as [f|]; [|exact IH].
    destruct (PathM.to_str f) as [fs|]; [|exact IH].
    destruct (tar_binary_name fs); [|exact IH].
    apply frames_bind; [apply frames_lift|]. intros. apply frames_write, HP.
  - apply frames_throw.
Qed.

Lemma frames_scan_zip (P : FsOp -> Prop) entries out :
  P (FsWrite out) -> frames P (scan_zip env entries out).
Proof.
  intros HP. induction entries as [|[e|] rest IH]; simpl.
  - apply frames_throw.
  - destruct (zip_binary_name _); [|exact IH].
    apply frames_bind; [apply frames_lift|]. intros. apply frames_write, HP.
  - apply frames_throw.
Qed.

Lemma frames_extract_and_write (P : FsOp -> Prop) asset bs temp t :
  P (FsWrite temp) -> frames P (extract_and_write env asset bs temp t).
Proof.
  intros HP. unfold extract_and_write.
  destruct (Str.ends_with (name asset) ".zst").
  { apply frames_bind; [apply frames_lift|]. intros. apply frames_write, HP. }
  destruct (Str.ends_with (name asset) ".tar.gz").
  { apply frames_scan_tar, HP. }
  destruct (Str.ends_with (name asset) ".zip").
  { apply frames_bind; [apply frames_lift|]. intros. apply frames_scan_zip, HP. }
  apply frames_throw.
Qed.

End Prims.
End Frames.

(* ------------------------------------------------------------------ *)
(** ** Binary replacement *)

Lemma steps_untouched P w w' p :
  Frames.steps P w w' -> (forall op, P op -> Frames.op_touches p op = false) ->
  files w' !! p = files w !! p.
Proof.
  intros (ops & _ & F & H) HP. apply H. eapply Forall_impl; [exact F|exact HP].
Qed.

Lemma temp_op_untouched temp exe op :
  temp <> exe -> temp_op temp op -> Frames.op_touches exe op = false.
Proof.
  intros Hne [->|[m ->]]; simpl; apply String.eqb_neq; congruence.
Qed.

Lemma frames_make_executable env temp :
  Frames.frames (temp_op temp) (make_executable env temp).
Proof.
  unfold make_executable. destruct (platform env).
  - apply Frames.frames_bind; [apply Frames.frames_metadata|]. intros.
    apply Frames.frames_set_permissions. right. eauto.
  - apply Frames.frames_ret.
Qed.

Lemma bind_run {S A B} (m : StM S A) (k : A -> StM S B) (s : S) :
  bind m k s = match m s with
               | (s', inr x) => k x s'
               | (s', inl e) => (s', inl e)
               end.
Proof. reflexivity. Qed.

Lemma frames_true {A} (m : FsM A) P : Frames.frames P m -> Frames.frames (fun _ => True) m.
Proof. apply Frames.frames_weaken. auto. Qed.

Ltac frames_true_tac :=
  repeat (apply Frames.frames_bind; intros);
  first [ apply Frames.frames_ret | apply Frames.frames_lift | apply Frames.frames_throw
        | apply Frames.frames_try; apply Frames.frames_remove; exact I
        | apply Frames.frames_rename; exact I
        | apply Frames.frames_remove; exact I ].

Lemma fs_rename_inl env src dst w w' e :
  fs_rename env src dst w = (w', inl e) -> w' = w.
Proof.
  unfold fs_rename. destruct (rename_fails env src dst); [congruence|].
  destruct (files w !! src); [|congruence].
  destruct (String.eqb src dst); discriminate.
Qed.

Lemma fs_rename_inr env src dst w w' u :
  fs_rename env src dst w = (w', inr u) ->
  fs_log w' = (fs_log w ++ [FsRename src dst])%list.
Proof.
  unfold fs_rename. destruct (rename_fails env src dst); [congruence|].
  destruct (files w !! src); [|congruence].
  destruct (String.eqb src dst); intros [= <- _]; reflexivity.
Qed.

(** The state reached by the write-and-chmod phase satisfies the C7 shape. *)
Lemma temp_phase_shape (env : Env) temp exe w w' :
  temp <> exe -> Frames.steps (temp_op temp) w w' ->
  exists ops, fs_log w' = (fs_log w ++ ops)%list /\
    ((forall src dst, ~ In (FsRename src dst) ops) -> files w' !! exe = files w !! exe) /\
    (platform env = Unix -> forall op, In op ops -> Frames.op_touches exe op = true ->
       op = FsRename temp exe).
Proof.
  intros Hne HS. pose proof HS as (ops & L & F & _).
  exists ops. split; [exact L|]. split.
  - intros _. eapply steps_untouched; [exact HS|].
    intros op Hop. apply (temp_op_untouched temp); auto.
  - intros _ op Hin Ht. rewrite List.Forall_forall in F.
    rewrite (temp_op_untouched temp exe op Hne (F op Hin)) in Ht. discriminate.
Qed.

(** The write-and-chmod phase performs no rename and leaves the executable's
    path alone. *)
Lemma temp_phase_no_rename (env : Env) temp exe w w' :
  temp <> exe -> Frames.steps (temp_op temp) w w' ->
  exists ops, fs_log w' = (fs_log w ++ ops)%list /\
    (forall src dst, ~ In (FsRename src dst) ops) /\
    files w' !! exe = files w !! exe /\
    (platform env = Unix -> forall op, In op ops -> Frames.op_touches exe op = true ->
       op = FsRename temp exe).
Proof.
  intros Hne HS. pose proof HS as (ops & L & F & _).
  rewrite List.Forall_forall in F.
  exists ops. split; [exact L|]. split; [|split].
  - intros src dst Hin. destruct (F _ Hin) as [H|[m H]]; discriminate H.
  - eapply steps_untouched; [exact HS|].
    intros op Hop. apply (temp_op_untouched temp); auto.
  - intros _ op Hin Ht.
    rewrite (temp_op_untouched temp exe op Hne (F op Hin)) in Ht. discriminate.
Qed.

(** A successful rename onto another path leaves nothing at the source. *)
Lemma fs_rename_inr_src env src dst w w' u :
  fs_rename env src dst w = (w', inr u) -> src <> dst -> files w' !! src = None.
Proof.
  unfold fs_rename. destruct (rename_fails env src dst); [congruence|].
  destruct (files w !! src); [|congruence].
  intros H Hne. apply String.eqb_neq in Hne as Heq. rewrite Heq in H.
  injection H as <- _. cbn [files log_op].
  rewrite lookup_insert_ne by congruence. apply lookup_delete_eq.
Qed.

(** C7 (as the code has it): when the temporary sibling path differs from
    the executable's path, a run of [download_and_replace_binary] that
    performs no rename (it failed before the replace step: download,
    unsupported format, decoding, archive scan, write or permission failure)
    leaves the file at the executable's path unchanged; on a POSIX-like
    platform the only operation touching that path is the rename of the
    temporary file onto it. On a Windows-like platform, when moreover the
    [".old"] backup path differs from the executable's path, a run that
    renamed the executable to its backup and then failed (the rename of the
    temporary file failed) leaves no file at the executable's path. *)
Theorem download_and_replace_binary_exe_untouched
    (env : Env) (asset : GitHubAsset) (target_triple : string) (w : World)
    (exe : string)
    (Hexe : current_exe env = Some exe)
    (Htmp : PathM.with_extension exe "tmp" <> exe) :
  exists ops,
    fs_log (fst (download_and_replace_binary env asset target_triple w)) =
      (fs_log w ++ ops)%list /\
    ((forall src dst, ~ In (FsRename src dst) ops) ->
       files (fst (download_and_replace_binary env asset target_triple w)) !! exe =
       files w !! exe) /\
    (platform env = Unix ->
       forall op, In op ops -> Frames.op_touches exe op = true ->
         op = FsRename (PathM.with_extension exe "tmp") exe) /\
    (platform env = Windows ->
       PathM.with_extension exe "old" <> exe ->
       In (FsRename exe (PathM.with_extension exe "old")) ops ->
       (exists e, snd (download_and_replace_binary env asset target_triple w) = inl e) ->
       files (fst (download_and_replace_binary env asset target_triple w)) !! exe = None).
Proof.
  set (temp := PathM.with_extension exe "tmp") in *.
  set (backup := PathM.with_extension exe "old").
  destruct (download_and_replace_binary env asset target_triple w) as [wf rf] eqn:Hrun.
  cbn [fst snd].
  unfold download_and_replace_binary in Hrun. rewrite bind_run in Hrun.
  unfold lift at 1 in Hrun; unfold opt_or at 1 in Hrun.
  destruct (download env (browser_download_url asset)) as [bs|]; cbn beta iota in Hrun.
  2:{ injection Hrun as <- _. exists []. rewrite app_nil_r. split; [reflexivity|].
      split; [auto|]. split; intros _; [intros op []|intros _ []]. }
  rewrite bind_run in Hrun. unfold lift at 1 in Hrun; unfold opt_or at 1 in Hrun.
  rewrite Hexe in Hrun.
  cbn beta iota in Hrun. rewrite bind_run in Hrun. fold temp in Hrun.
  pose proof (Frames.frames_extract_and_write env (temp_op temp) asset bs temp
                target_triple (or_introl eq_refl) w) as HE.
  destruct (extract_and_write env asset bs temp target_triple w) as [w1 [e1|u1]] eqn:E1;
    simpl in HE.
  { injection Hrun as <- _.
    destruct (temp_phase_no_rename env temp exe w w1 Htmp HE) as (ops & L & Hnr & Hf & Hu).
    exists ops. split; [exact L|]. split; [auto|]. split; [exact Hu|].
    intros _ _ Hin. exfalso. exact (Hnr _ _ Hin). }
  rewrite bind_run in Hrun.
  pose proof (frames_make_executable env temp w1) as HM.
  destruct (make_executable env temp w1) as [w2 [e2|u2]] eqn:E2; simpl in HM;
    pose proof (Frames.steps_trans _ _ _ _ HE HM) as HW.
  { injection Hrun as <- _.
    destruct (temp_phase_no_rename env temp exe w w2 Htmp HW) as (ops & L & Hnr & Hf & Hu).
    exists ops. split; [exact L|]. split; [auto|]. split; [exact Hu|].
    intros _ _ Hin. exfalso. exact (Hnr _ _ Hin). }
  destruct (temp_phase_no_rename env temp exe w w2 Htmp HW) as (ops & L & Hnr & Hf & Hu).
  unfold replace_executable in Hrun. destruct (platform env) eqn:Hp.
  - destruct (fs_rename env temp exe w2) as [w3 [e3|u3]] eqn:E3;
      injection Hrun as <- <-.
    + apply fs_rename_inl in E3. subst w3. exists ops.
      split; [exact L|]. split; [auto|]. split; [exact Hu|]. intros H; discriminate H.
    + apply fs_rename_inr in E3. exists (ops ++ [FsRename temp exe])%list.
      split; [rewrite E3, L, app_assoc; reflexivity|]. split; [|split].
      * intros H. exfalso. apply (H temp exe). apply in_or_app. right. left. reflexivity.
      * intros _ op Hin Ht. apply in_app_or in Hin as [Hin|[<-|[]]]; [|reflexivity].
        apply (Hu eq_refl op Hin Ht).
      * intros H; discriminate H.
  - fold backup in Hrun. rewrite bind_run in Hrun.
    destruct (fs_rename env exe backup w2) as [w3 [e3|u3]] eqn:E3.
    + injection Hrun as <- <-.
      apply fs_rename_inl in E3. subst w3. exists ops.
      split; [exact L|]. split; [auto|]. split; [intros H; discriminate H|].
      intros _ _ Hin. exfalso. exact (Hnr _ _ Hin).
    + pose proof E3 as E3'. apply fs_rename_inr in E3.
      rewrite bind_run in Hrun.
      destruct (fs_rename env temp exe w3) as [w4 [e4|u4]] eqn:E4.
      * injection Hrun as <- <-.
        apply fs_rename_inl in E4. subst w4.
        exists (ops ++ [FsRename exe backup])%list.
        split; [rewrite E3, L, app_assoc; reflexivity|]. split; [|split].
        -- intros H. exfalso. apply (H exe backup). apply in_or_app. right. left.
           reflexivity.
        -- intros H; discriminate H.
        -- intros _ Hb _ _.
           exact (fs_rename_inr_src env exe backup w2 w3 u3 E3' (not_eq_sym Hb)).
      * apply fs_rename_inr in E4. rewrite bind_run in Hrun.
        assert (HR : Frames.frames (fun _ => True)
          (try_ (fs_remove_file env backup))) by frames_true_tac.
        destruct (HR w4) as (ops' & L' & _ & _).
        destruct (try_ (fs_remove_file env backup) w4) as [w5 r5] eqn:E5.
        assert (Hr5 : exists x, r5 = inr x).
        { unfold try_ in E5. destruct (fs_remove_file env backup w4).
          injection E5 as _ <-. eexists. reflexivity. }
        destruct Hr5 as [x ->]. cbn [fst] in L'.
        injection Hrun as <- <-.
        exists (ops ++ FsRename exe backup :: FsRename temp exe :: ops')%list.
        split; [rewrite L', E4, E3, L, <- !app_assoc; reflexivity|]. split; [|split].
        -- intros H. exfalso. apply (H exe backup).
           apply in_or_app. right. left. reflexivity.
        -- intros H; discriminate H.
        -- intros _ _ _ [e He]. discriminate He.
Qed.

Lemma download_and_replace_binary_exe_untouched_witness :
  current_exe (sample_env Unix "/usr/bin/codex"
    (fun p => if String.eqb p "/usr/bin/codex.tmp" then Some (FailAfter 0) else None)
    (fun _ _ => false)) = Some "/usr/bin/codex" /\
  PathM.with_extension "/usr/bin/codex" "tmp" <> "/usr/bin/codex" /\
  files (fst (download_and_replace_binary
    (sample_env Unix "/usr/bin/codex"
       (fun p => if String.eqb p "/usr/bin/codex.tmp" then Some (FailAfter 0) else None)
       (fun _ _ => false))
    zst_asset "x86_64-unknown-linux-musl" (sample_world "/usr/bin/codex")))
    !! "/usr/bin/codex" =
  files (sample_world "/usr/bin/codex") !! "/usr/bin/codex" /\
  current_exe (sample_env Windows "/opt/codex/codex.exe" (fun _ => None)
    (fun _ dst => String.eqb dst "/opt/codex/codex.exe")) = Some "/opt/codex/codex.exe" /\
  PathM.with_extension "/opt/codex/codex.exe" "tmp" <> "/opt/codex/codex.exe" /\
  PathM.with_extension "/opt/codex/codex.exe" "old" <> "/opt/codex/codex.exe" /\
  files (fst (download_and_replace_binary
    (sample_env Windows "/opt/codex/codex.exe" (fun _ => None)
       (fun _ dst => String.eqb dst "/opt/codex/codex.exe"))
    zst_asset "x86_64-pc-windows-msvc" (sample_world "/opt/codex/codex.exe")))
    !! "/opt/codex/codex.exe" = None.
Proof.
  assert (Ht1 : PathM.with_extension "/usr/bin/codex" "tmp" <> "/usr/bin/codex")
    by (vm_compute; discriminate).
  assert (Ht2 : PathM.with_extension "/opt/codex/codex.exe" "tmp" <> "/opt/codex/codex.exe")
    by (vm_compute; discriminate).
  assert (Hb2 : PathM.with_extension "/opt/codex/codex.exe" "old" <> "/opt/codex/codex.exe")
    by (vm_compute; discriminate).
  split; [reflexivity|]. split; [exact Ht1|]. split.
  { destruct (download_and_replace_binary_exe_untouched
      (sample_env Unix "/usr/bin/codex"
         (fun p => if String.eqb p "/usr/bin/codex.tmp" then Some (FailAfter 0) else None)
         (fun _ _ => false))
      zst_asset "x86_64-unknown-linux-musl" (sample_world "/usr/bin/codex")
      "/usr/bin/codex" eq_refl Ht1) as (ops & L & Hf & _ & _).
    vm_compute in L. subst ops. apply Hf.
    intros src dst [H|[]]. discriminate H. }
  split; [reflexivity|]. split; [exact Ht2|]. split; [exact Hb2|].
  destruct (download_and_replace_binary_exe_untouched
    (sample_env Windows "/opt/codex/codex.exe" (fun _ => None)
       (fun _ dst => String.eqb dst "/opt/codex/codex.exe"))
    zst_asset "x86_64-pc-windows-msvc" (sample_world "/opt/codex/codex.exe")
    "/opt/codex/codex.exe" eq_refl Ht2) as (ops & L & _ & _ & Hw).
  vm_compute in L. subst ops. apply Hw; [reflexivity|exact Hb2| |].
  - right. left. reflexivity.
  - exists IoError. vm_compute. reflexivity.
Defined.

(** C7 (as the spec states it) fails.  (a) On a POSIX-like platform with the
    executable at ["/opt/codex/codex.tmp"], the temporary path is the
    executable's own path, and a write that fails after truncating it leaves
    the executable empty although no rename happened.  (b) On a Windows-like
    platform, when the rename of the temporary file fails, the executable has
    already been moved to its backup path: its path is emptied by a rename
    that is not the rename of the temporary file. (c) The Windows-like case
    needs the backup path to differ from the executable's: an executable
    named ["codex.old"] is its own backup, the first rename changes nothing,
    and when the rename of the temporary file fails the executable is still
    there. *)
Lemma download_and_replace_binary_exe_modified_before_final_rename :
  (let exe := "/opt/codex/codex.tmp" in
   let env := sample_env Unix exe
                (fun p => if String.eqb p exe then Some (FailAfter 0) else None)
                (fun _ _ => false) in
   let run := download_and_replace_binary env zst_asset "x86_64-unknown-linux-musl"
                (sample_world exe) in
   snd run = inl IoError /\
   fs_log (fst run) = [FsWrite exe] /\
   files (fst run) !! exe = Some (mkFile [] mode_0o755) /\
   files (sample_world exe) !! exe = Some (mkFile [Byte.x00] mode_0o755)) /\
  (let exe := "/opt/codex/codex.exe" in
   let env := sample_env Windows exe (fun _ => None)
                (fun _ dst => String.eqb dst exe) in
   let run := download_and_replace_binary env zst_asset "x86_64-pc-windows-msvc"
                (sample_world exe) in
   snd run = inl IoError /\
   fs_log (fst run) = [FsWrite "/opt/codex/codex.tmp";
                       FsRename exe "/opt/codex/codex.old"] /\
   files (fst run) !! exe = None /\
   files (sample_world exe) !! exe = Some (mkFile [Byte.x00] mode_0o755)) /\
  (let exe := "/opt/codex/codex.old" in
   let env := sample_env Windows exe (fun _ => None)
                (fun src _ => String.eqb src "/opt/codex/codex.tmp") in
   let run := download_and_replace_binary env zst_asset "x86_64-pc-windows-msvc"
                (sample_world exe) in
   PathM.with_extension exe "old" = exe /\
   snd run = inl IoError /\
   fs_log (fst run) = [FsWrite "/opt/codex/codex.tmp"; FsRename exe exe] /\
   files (fst run) !! exe = Some (mkFile [Byte.x00] mode_0o755)).
Proof. split; [|split]; vm_compute; repeat split; reflexivity. Qed.

Lemma fs_write_inr env p d w w' u :
  fs_write env p d w = (w', inr u) ->
  fs_log w' = (fs_log w ++ [FsWrite p])%list /\ exists m, files w' = <[p := mkFile d m]> (files w).
Proof.
  unfold fs_write. destruct (write_fault env p) as [[|n]|]; try discriminate.
  intros [= <- _]. split; [reflexivity|]. eexists. reflexivity.
Qed.

Lemma scan_tar_inr env entries out w w' u :
  scan_tar env entries out w = (w', inr u) -> fs_log w' = (fs_log w ++ [FsWrite out])%list.
Proof.
  induction entries as [|[e|] rest IH]; simpl; try discriminate.
  destruct (PathM.file_name (tar_path e)) as [f|]; [|exact IH].
  destruct (PathM.to_str f) as [fs|]; [|exact IH].
  destruct (tar_binary_name fs); [|exact IH].
  rewrite bind_run. destruct (tar_data e); simpl; [|discriminate].
  intros H. apply fs_write_inr in H. apply H.
Qed.

Lemma scan_zip_inr env entries out w w' u :
  scan_zip env entries out w = (w', inr u) -> fs_log w' = (fs_log w ++ [FsWrite out])%list.
Proof.
  induction entries as [|[e|] rest IH]; simpl; try discriminate.
  destruct (zip_binary_name _); [|exact IH].
  rewrite bind_run. destruct (zip_data e); simpl; [|discriminate].
  intros H. apply fs_write_inr in H. apply H.
Qed.

Lemma extract_and_write_inr env asset bs temp t w w' u :
  extract_and_write env asset bs temp t w = (w', inr u) ->
  fs_log w' = (fs_log w ++ [FsWrite temp])%list.
Proof.
  unfold extract_and_write.
  destruct (Str.ends_with (name asset) ".zst").
  { rewrite bind_run. destruct (zstd_decode_all env bs); simpl; [|discriminate].
    intros H. apply fs_write_inr in H. apply H. }
  destruct (Str.ends_with (name asset) ".tar.gz"); [apply scan_tar_inr|].
  destruct (Str.ends_with (name asset) ".zip"); [|discriminate].
  unfold extract_zip. rewrite bind_run.
  destruct (zip_archive env bs); simpl; [apply scan_zip_inr|discriminate].
Qed.

(** C8: on a POSIX-like platform a successful run writes the extracted bytes
    to the temporary sibling path, sets its permission bits to [0o755], and
    renames it onto the executable's path, in this order and with nothing
    else; the file then at the executable's path has mode [0o755], and the
    temporary path is gone when it differs from the executable's. *)
Theorem download_and_replace_binary_posix_executable
    (env : Env) (asset : GitHubAsset) (target_triple : string) (w : World)
    (exe : string)
    (Hplat : platform env = Unix)
    (Hexe : current_exe env = Some exe)
    (Hok : snd (download_and_replace_binary env asset target_triple w) = inr tt) :
  let temp := PathM.with_extension exe "tmp" in
  let w' := fst (download_and_replace_binary env asset target_triple w) in
  fs_log w' =
    (fs_log w ++ [FsWrite temp; FsSetPermissions temp mode_0o755;
                  FsRename temp exe])%list /\
  (exists f, files w' !! exe = Some f /\ mode f = mode_0o755) /\
  (temp <> exe -> files w' !! temp = None).
Proof.
  intros temp w'. subst w'.
  revert Hok. unfold download_and_replace_binary. cbn [bind lift opt_or].
  destruct (download env (browser_download_url asset)) as [bs|]; simpl;
    [|discriminate].
  rewrite Hexe. cbn [opt_or]. rewrite !bind_run. fold temp.
  destruct (extract_and_write env asset bs temp target_triple w) as [w1 [e1|u1]] eqn:E1;
    simpl; [discriminate|].
  apply extract_and_write_inr in E1.
  unfold make_executable, replace_executable. rewrite Hplat, !bind_run.
  unfold fs_metadata, fs_set_permissions, fs_rename.
  destruct (metadata_fails env temp); [simpl; discriminate|].
  destruct (files w1 !! temp) as [f1|] eqn:F1; [|simpl; rewrite ?F1; simpl; discriminate].
  destruct (set_permissions_fails env temp); simpl; rewrite ?F1; simpl; [discriminate|].
  destruct (rename_fails env temp exe); [simpl; discriminate|].
  simpl. rewrite lookup_insert_eq.
  destruct (String.eqb temp exe) eqn:Ete; simpl; intros _.
  - apply String.eqb_eq in Ete. split.
    + rewrite E1, <- !app_assoc. reflexivity.
    + split; [|intros Hne; contradiction].
      rewrite <- Ete, lookup_insert_eq. eexists. split; reflexivity.
  - apply String.eqb_neq in Ete. split.
    + rewrite E1, <- !app_assoc. reflexivity.
    + split.
      * rewrite lookup_insert_eq. eexists. split; reflexivity.
      * intros _. rewrite lookup_insert_ne by congruence.
        apply lookup_delete_eq.
Qed.

Lemma download_and_replace_binary_posix_executable_witness :
  platform (sample_env Unix "/usr/bin/codex" (fun _ => None) (fun _ _ => false)) = Unix /\
  current_exe (sample_env Unix "/usr/bin/codex" (fun _ => None) (fun _ _ => false)) =
    Some "/usr/bin/codex" /\
  snd (download_and_replace_binary
         (sample_env Unix "/usr/bin/codex" (fun _ => None) (fun _ _ => false))
         zst_asset "x86_64-unknown-linux-musl" (sample_world "/usr/bin/codex")) = inr tt /\
  fs_log (fst (download_and_replace_binary
         (sample_env Unix "/usr/bin/codex" (fun _ => None) (fun _ _ => false))
         zst_asset "x86_64-unknown-linux-musl" (sample_world "/usr/bin/codex"))) =
    [FsWrite "/usr/bin/codex.tmp"; FsSetPermissions "/usr/bin/codex.tmp" mode_0o755;
     FsRename "/usr/bin/codex.tmp" "/usr/bin/codex"].
Proof.
  assert (Hok : snd (download_and_replace_binary
         (sample_env Unix "/usr/bin/codex" (fun _ => None) (fun _ _ => false))
         zst_asset "x86_64-unknown-linux-musl" (sample_world "/usr/bin/codex")) = inr tt)
    by (vm_compute; reflexivity).
  split; [reflexivity|]. split; [reflexivity|]. split; [exact Hok|].
  exact (proj1 (download_and_replace_binary_posix_executable
    (sample_env Unix "/usr/bin/codex" (fun _ => None) (fun _ _ => false))
    zst_asset "x86_64-unknown-linux-musl" (sample_world "/usr/bin/codex")
    "/usr/bin/codex" eq_refl eq_refl Hok)).
Defined.







(* ================================================================== *)
(** * Further properties of the self-update code *)

(* ------------------------------------------------------------------ *)
(** ** Release discovery: the merged list and the order of effects *)

(** When both repositories answer, [list_releases] fetches the primary,
    then the secondary, prints nothing, and returns the primary's releases
    (labelled ["openai/codex"]) followed by the secondary's (labelled
    ["owner/name"]), sorted; an empty merge is [NoReleasesFound]. *)
Theorem list_releases_merged_result
    (net : string -> string -> option (list GitHubRelease))
    (repo_override : option string) (s : IOState) (owner name : string)
    (primary secondary : list GitHubRelease)
    (Hp : net PRIMARY_REPO_OWNER PRIMARY_REPO_NAME = Some primary)
    (Hr : resolve_secondary repo_override = inr (owner, name))
    (Hne : (owner, name) <> (PRIMARY_REPO_OWNER, PRIMARY_REPO_NAME))
    (Hs : net owner name = Some secondary) :
  list_releases net repo_override s =
  (mkIOState (fetched s ++ [(PRIMARY_REPO_OWNER, PRIMARY_REPO_NAME); (owner, name)])
             (stderr s),
   match (map (to_release primary_label) primary ++
          map (to_release (owner +:+ "/" +:+ name)) secondary)%list with
   | [] => inl NoReleasesFound
   | merged => inr (sort_by release_cmp merged)
   end).
Proof.
  run_list_releases. rewrite Hp. simpl.
  assert (Hb : (negb (String.eqb owner "openai") || negb (String.eqb name "codex"))%bool
               = true).
  { destruct (String.eqb owner "openai") eqn:Eo, (String.eqb name "codex") eqn:En;
      try reflexivity.
    apply String.eqb_eq in Eo, En. subst. exfalso. apply Hne. reflexivity. }
  destruct repo_override as [r|]; simpl in Hr |- *;
    [rewrite Hr|injection Hr as <- <-]; simpl; rewrite ?Hb, Hs; simpl;
    rewrite <- app_assoc; simpl;
    destruct (map (to_release primary_label) primary ++ _)%list; reflexivity.
Qed.

Lemma list_releases_merged_result_witness :
  sample_net PRIMARY_REPO_OWNER PRIMARY_REPO_NAME =
    Some [sample_release "rust-v0.26.0"; sample_release "rust-v0.28.0"] /\
  resolve_secondary None = inr (DEFAULT_REPO_OWNER, DEFAULT_REPO_NAME) /\
  (DEFAULT_REPO_OWNER, DEFAULT_REPO_NAME) <> (PRIMARY_REPO_OWNER, PRIMARY_REPO_NAME) /\
  sample_net DEFAULT_REPO_OWNER DEFAULT_REPO_NAME = Some [sample_release "v0.27.0"] /\
  list_releases sample_net None empty_io =
  (mkIOState ([(PRIMARY_REPO_OWNER, PRIMARY_REPO_NAME);
               (DEFAULT_REPO_OWNER, DEFAULT_REPO_NAME)]) [],
   match (map (to_release primary_label)
            [sample_release "rust-v0.26.0"; sample_release "rust-v0.28.0"] ++
          map (to_release (DEFAULT_REPO_OWNER +:+ "/" +:+ DEFAULT_REPO_NAME))
            [sample_release "v0.27.0"])%list with
   | [] => inl NoReleasesFound
   | merged => inr (sort_by release_cmp merged)
   end).
Proof.
  assert (Hne : (DEFAULT_REPO_OWNER, DEFAULT_REPO_NAME) <>
                (PRIMARY_REPO_OWNER, PRIMARY_REPO_NAME))
    by (unfold DEFAULT_REPO_OWNER, PRIMARY_REPO_OWNER; intros H; discriminate H).
  split; [reflexivity|]. split; [reflexivity|]. split; [exact Hne|].
  split; [reflexivity|].
  exact (list_releases_merged_result sample_net None empty_io
           DEFAULT_REPO_OWNER DEFAULT_REPO_NAME _ _ eq_refl eq_refl Hne eq_refl).
Defined.

(** A malformed override fails with [InvalidSourceFormat] only after the
    primary repository has been fetched (and its warning printed when that
    fetch failed); no second repository is fetched. *)
Theorem list_releases_invalid_override
    (net : string -> string -> option (list GitHubRelease)) (r : string) (s : IOState)
    (Hr : List.length (Str.split slash r) <> 2%nat) :
  list_releases net (Some r) s =
  (mkIOState (fetched s ++ [(PRIMARY_REPO_OWNER, PRIMARY_REPO_NAME)])
     (stderr s ++ match net PRIMARY_REPO_OWNER PRIMARY_REPO_NAME with
                  | Some _ => [] | None => [primary_warning] end),
   inl InvalidSourceFormat).
Proof.
  assert (Hp : parse_repo_string r = inl InvalidSourceFormat).
  { unfold parse_repo_string. apply Nat.eqb_neq in Hr. rewrite Hr. reflexivity. }
  run_list_releases. rewrite Hp.
  destruct (net "openai" "codex"); simpl; rewrite ?app_nil_r; reflexivity.
Qed.

Lemma list_releases_invalid_override_witness :
  List.length (Str.split slash "a/b/c") <> 2%nat /\
  list_releases sample_net (Some "a/b/c") empty_io =
  (mkIOState ([] ++ [(PRIMARY_REPO_OWNER, PRIMARY_REPO_NAME)])
     ([] ++ match sample_net PRIMARY_REPO_OWNER PRIMARY_REPO_NAME with
           | Some _ => [] | None => [primary_warning] end),
   inl InvalidSourceFormat).
Proof.
  assert (H : List.length (Str.split slash "a/b/c") <> 2%nat)
    by (vm_compute; intros H; discriminate H).
  split; [exact H|].
  exact (list_releases_invalid_override sample_net "a/b/c" empty_io H).
Defined.

(* ------------------------------------------------------------------ *)
(** ** Target triple *)

Module ContainsFacts.

Lemma contains_empty s : Str.contains s "" = true.
Proof. destruct s; reflexivity. Qed.

Lemma contains_nil_l p : p <> "" -> Str.contains "" p = false.
Proof. destruct p; [congruence|reflexivity]. Qed.

(** A pattern without ['-'] cannot start across a ['-']. *)
Lemma starts_with_dash x y p :
  Str.contains p "-" = false ->
  Str.starts_with (x +:+ String "-" y) p = Str.starts_with x p.
Proof.
  revert p. induction x as [|d x IH]; intros [|c p] Hp; try reflexivity.
  - simpl in Hp. unfold Str.starts_with. simpl.
    destruct (Ascii.eqb c "-") eqn:E; [|reflexivity].
    apply Ascii.eqb_eq in E. subst. discriminate Hp.
  - unfold Str.starts_with in *. simpl.
    destruct (Ascii.eqb c d); [|reflexivity].
    apply IH. simpl in Hp. apply orb_false_iff in Hp. apply Hp.
Qed.

(** A non-empty pattern without ['-'] occurs in [x-y] iff it occurs in [x]
    or in [y]. *)
Lemma contains_dash x y p :
  p <> "" -> Str.contains p "-" = false ->
  Str.contains (x +:+ String "-" y) p = Str.contains x p || Str.contains y p.
Proof.
  intros Hne Hp. induction x as [|d x IH].
  - change ("" +:+ String "-" y) with (String "-" y).
    rewrite (contains_nil_l p Hne). cbn [Str.contains].
    replace (Str.starts_with (String "-" y) p) with false; [reflexivity|].
    destruct p as [|c p]; [congruence|].
    unfold Str.starts_with. simpl. simpl in Hp.
    destruct (Ascii.eqb c "-") eqn:E; [|reflexivity].
    apply Ascii.eqb_eq in E. subst. discriminate Hp.
  - change (String d x +:+ String "-" y) with (String d (x +:+ String "-" y)).
    cbn [Str.contains]. rewrite IH.
    change (Str.starts_with (String d (x +:+ String "-" y)) p)
      with (Str.starts_with (String d x +:+ String "-" y) p).
    rewrite (starts_with_dash (String d x) y p Hp). apply orb_assoc.
Qed.

End ContainsFacts.

(** Without a usable [CODEX_TARGET_TRIPLE] or [TARGET] (absent or not
    UTF-8), the triple names Windows, so that [find_suitable_asset] looks for
    [.exe] assets, exactly when the compile-time architecture or operating
    system name contains ["windows"]. *)
Theorem fallback_triple_windows_like (var_os : string -> option string)
    (cfg : TargetCfg) (e1 e2 : VarError)
    (H1 : env_var var_os "CODEX_TARGET_TRIPLE" = inl e1)
    (H2 : env_var var_os "TARGET" = inl e2) :
  Str.contains (get_current_target_triple var_os cfg) "windows" =
    Str.contains (target_arch cfg) "windows" || Str.contains (target_os cfg) "windows" /\
  preferred_extensions (get_current_target_triple var_os cfg) =
    (if Str.contains (target_arch cfg) "windows" || Str.contains (target_os cfg) "windows"
     then [".exe.zst"; ".exe.zip"; ".exe.tar.gz"] else [".zst"; ".tar.gz"]).
Proof.
  assert (Hc : Str.contains (get_current_target_triple var_os cfg) "windows" =
    Str.contains (target_arch cfg) "windows" || Str.contains (target_os cfg) "windows").
  { unfold get_current_target_triple. rewrite H1, H2. unfold fallback_target_triple.
    destruct cfg as [arch os tenv]. cbn [target_arch target_os target_env].
    repeat match goal with
           | |- context [String.eqb ?x ?lit] =>
               is_var x; destruct (String.eqb x lit) eqn:?
           end;
    repeat match goal with
           | H : String.eqb _ _ = true |- _ =>
               apply String.eqb_eq in H; first [discriminate H | subst]
           end; cbn [andb]; try reflexivity;
    match goal with
    | |- context [?a +:+ ("-unknown-" +:+ ?o)] =>
        change (a +:+ ("-unknown-" +:+ o))
          with (a +:+ String "-" ("unknown" +:+ String "-" o))
    end;
    rewrite !ContainsFacts.contains_dash by (vm_compute; congruence);
    reflexivity. }
  split; [exact Hc|]. unfold preferred_extensions. rewrite Hc. reflexivity.
Qed.

Lemma fallback_triple_windows_like_witness :
  env_var (fun _ => None) "CODEX_TARGET_TRIPLE" = inl NotPresent /\
  env_var (fun _ => None) "TARGET" = inl NotPresent /\
  preferred_extensions
    (get_current_target_triple (fun _ => None) (mkTargetCfg "aarch64" "windows" "msvc")) =
    (if Str.contains "aarch64" "windows" || Str.contains "windows" "windows"
     then [".exe.zst"; ".exe.zip"; ".exe.tar.gz"] else [".zst"; ".tar.gz"]).
Proof.
  split; [reflexivity|]. split; [reflexivity|].
  exact (proj2 (fallback_triple_windows_like (fun _ => None)
    (mkTargetCfg "aarch64" "windows" "msvc") NotPresent NotPresent eq_refl eq_refl)).
Defined.

(** [CODEX_TARGET_TRIPLE] wins when it is set to valid UTF-8, even to the
    empty string; a value that is not UTF-8 is skipped like an absent one,
    and [TARGET] is then consulted the same way. An empty triple, from
    whichever variable it comes, occurs in every asset name, so asset
    selection then takes the first [.zst] asset of any platform, else the
    first [.tar.gz] one. *)
Theorem target_triple_env_precedence (var_os : string -> option string)
    (cfg : TargetCfg) (assets : list GitHubAsset) :
  (forall v, var_os "CODEX_TARGET_TRIPLE" = Some v ->
     PathM.utf8_valid_fuel (S (String.length v)) v = true ->
     get_current_target_triple var_os cfg = v) /\
  (forall v, (var_os "CODEX_TARGET_TRIPLE" = None \/
              exists b, var_os "CODEX_TARGET_TRIPLE" = Some b /\
                        PathM.utf8_valid_fuel (S (String.length b)) b = false) ->
     var_os "TARGET" = Some v ->
     PathM.utf8_valid_fuel (S (String.length v)) v = true ->
     get_current_target_triple var_os cfg = v) /\
  (get_current_target_triple var_os cfg = "" ->
     find_suitable_asset assets (get_current_target_triple var_os cfg) =
     match List.find (fun a => Str.ends_with (name a) ".zst") assets with
     | Some a => Some a
     | None => List.find (fun a => Str.ends_with (name a) ".tar.gz") assets
     end).
Proof.
  unfold get_current_target_triple, env_var. split; [|split].
  - intros v -> ->. reflexivity.
  - intros v [-> | (b & -> & Hb)] -> ->; [reflexivity|]. rewrite Hb. reflexivity.
  - intros Hemp. fold (get_current_target_triple var_os cfg). rewrite Hemp.
    unfold find_suitable_asset, preferred_extensions.
    change (Str.contains "" "windows") with false. cbn iota.
    cbn [try_extensions]. unfold asset_matches.
    assert (Hf : forall ext,
      List.find (fun a => Str.contains (name a) "" && Str.ends_with (name a) ext) assets =
      List.find (fun a => Str.ends_with (name a) ext) assets).
    { intros ext. induction assets as [|a l IH]; [reflexivity|].
      simpl. rewrite ContainsFacts.contains_empty, IH. reflexivity. }
    rewrite !Hf. destruct (List.find _ assets); [reflexivity|].
    destruct (List.find _ assets); reflexivity.
Qed.

Lemma target_triple_env_precedence_witness :
  get_current_target_triple
    (fun k => if String.eqb k "TARGET" then Some "" else None)
    (mkTargetCfg "x86_64" "windows" "msvc") = "" /\
  find_suitable_asset linux_assets
    (get_current_target_triple
       (fun k => if String.eqb k "TARGET" then Some "" else None)
       (mkTargetCfg "x86_64" "windows" "msvc")) =
  match List.find (fun a => Str.ends_with (name a) ".zst") linux_assets with
  | Some a => Some a
  | None => List.find (fun a => Str.ends_with (name a) ".tar.gz") linux_assets
  end.
Proof.
  assert (He : get_current_target_triple
    (fun k => if String.eqb k "TARGET" then Some "" else None)
    (mkTargetCfg "x86_64" "windows" "msvc") = "") by (vm_compute; reflexivity).
  split; [exact He|].
  exact (proj2 (proj2 (target_triple_env_precedence
    (fun k => if String.eqb k "TARGET" then Some "" else None)
    (mkTargetCfg "x86_64" "windows" "msvc") linux_assets)) He).
Defined.

(* ------------------------------------------------------------------ *)
(** ** [is_newer_version] and the colours of [print_releases_list] *)

Module SemverRefl.
Import Semver.

Lemma string_compare_refl s : String.compare s s = Eq.
Proof.
  induction s as [|c s IH]; [reflexivity|]. simpl.
  unfold Ascii.compare. rewrite N.compare_refl. exact IH.
Qed.

Lemma cmp_idents_refl f : (forall x, f x x = Eq) -> forall l, cmp_idents f l l = Eq.
Proof.
  intros Hf l. induction l as [|x l IH]; [reflexivity|]. simpl.
  destruct (all_chars is_ascii_digit x); rewrite ?Hf, ?string_compare_refl; exact IH.
Qed.

Lemma pre_num_cmp_refl x : pre_num_cmp x x = Eq.
Proof. unfold pre_num_cmp, nat_cmp. rewrite Nat.compare_refl, string_compare_refl. reflexivity. Qed.

Lemma build_num_cmp_refl x : build_num_cmp x x = Eq.
Proof.
  unfold build_num_cmp, nat_cmp. rewrite !Nat.compare_refl, string_compare_refl.
  reflexivity.
Qed.

Lemma cmp_pre_refl p : cmp_pre p p = Eq.
Proof. destruct p; [reflexivity|]. apply cmp_idents_refl, pre_num_cmp_refl. Qed.

Lemma cmp_refl v : cmp v v = Eq.
Proof.
  unfold cmp, cmp_build. rewrite !N.compare_refl, cmp_pre_refl.
  apply cmp_idents_refl, build_num_cmp_refl.
Qed.

End SemverRefl.

(** [is_newer_version] is false whenever either string is not a valid
    semantic version, is irreflexive, and never holds in both directions. *)
Theorem is_newer_version_strict (v c : string) :
  ((Semver.parse v = None \/ Semver.parse c = None) -> is_newer_version v c = false) /\
  is_newer_version v v = false /\
  (is_newer_version v c = true -> is_newer_version c v = false).
Proof.
  unfold is_newer_version. split; [|split].
  - intros [-> | ->]; [reflexivity|]. destruct (Semver.parse v); reflexivity.
  - destruct (Semver.parse v) as [x|]; [|reflexivity].
    rewrite SemverRefl.cmp_refl. reflexivity.
  - destruct (Semver.parse v) as [x|], (Semver.parse c) as [y|]; try discriminate.
    rewrite (SemverFacts.cmp_antisym y x).
    destruct (Semver.cmp x y); simpl; congruence.
Qed.

Lemma is_newer_version_strict_witness :
  (Semver.parse "not-a-version" = None \/ Semver.parse "0.27.0" = None) /\
  is_newer_version "not-a-version" "0.27.0" = false /\
  is_newer_version "0.28.0" "0.27.0" = true /\
  is_newer_version "0.27.0" "0.28.0" = false.
Proof.
  assert (H1 : Semver.parse "not-a-version" = None \/ Semver.parse "0.27.0" = None)
    by (left; vm_compute; reflexivity).
  assert (H2 : is_newer_version "0.28.0" "0.27.0" = true) by (vm_compute; reflexivity).
  split; [exact H1|]. split; [exact (proj1 (is_newer_version_strict _ _) H1)|].
  split; [exact H2|].
  exact (proj2 (proj2 (is_newer_version_strict _ _)) H2).
Defined.

(** With equal major, minor and patch numbers, a pre-release is never newer
    than the plain release; and with equal pre-release too, a version with
    build metadata is newer than the same version without any. *)
Theorem is_newer_version_pre_and_build (v c : string) (x y : Semver.Version)
    (Hv : Semver.parse v = Some x) (Hc : Semver.parse c = Some y)
    (Hcore : (Semver.major x, Semver.minor x, Semver.patch x) =
             (Semver.major y, Semver.minor y, Semver.patch y)) :
  (Semver.pre x <> [] -> Semver.pre y = [] -> is_newer_version v c = false) /\
  (Semver.pre x = Semver.pre y -> Semver.build x <> [] -> Semver.build y = [] ->
     is_newer_version v c = true).
Proof.
  unfold is_newer_version. rewrite Hv, Hc.
  destruct x as [ma mi pa pr bu], y as [ma' mi' pa' pr' bu'].
  injection Hcore as <- <- <-. cbn [Semver.pre Semver.build].
  unfold Semver.cmp. cbn [Semver.major Semver.minor Semver.patch Semver.pre Semver.build].
  rewrite !N.compare_refl. cbn [Semver.then_cmp]. split.
  - intros Hx ->. destruct pr; [congruence|]. reflexivity.
  - intros <- Hb ->. rewrite SemverRefl.cmp_pre_refl. cbn [Semver.then_cmp].
    destruct bu; [congruence|]. reflexivity.
Qed.

Lemma is_newer_version_pre_and_build_witness :
  exists x y,
    Semver.parse "0.28.0+build.5" = Some x /\ Semver.parse "0.28.0" = Some y /\
    Semver.pre x = Semver.pre y /\ Semver.build x <> [] /\ Semver.build y = [] /\
    is_newer_version "0.28.0+build.5" "0.28.0" = true.
Proof.
  exists (Semver.mkVersion 0 28 0 [] ["build"; "5"]), (Semver.mkVersion 0 28 0 [] []).
  assert (Hv : Semver.parse "0.28.0+build.5" = Some (Semver.mkVersion 0 28 0 [] ["build"; "5"]))
    by (vm_compute; reflexivity).
  assert (Hc : Semver.parse "0.28.0" = Some (Semver.mkVersion 0 28 0 [] []))
    by (vm_compute; reflexivity).
  assert (Hb : Semver.build (Semver.mkVersion 0 28 0 [] ["build"; "5"]) <> [])
    by (simpl; discriminate).
  do 5 (split; [first [exact Hv | exact Hc | exact Hb | reflexivity]|]).
  exact (proj2 (is_newer_version_pre_and_build _ _ _ _ Hv Hc eq_refl) eq_refl Hb eq_refl).
Defined.

(** The colour of a release line: yellow for every pre-release; for a
    stable release, cyan when its version string is the running version,
    and white when its version is not a valid semantic version and differs
    from the running one. *)
Theorem release_color_cases (current_version : string) (r : Release) :
  (is_prerelease r = true -> release_color current_version r = color_yellow) /\
  (is_prerelease r = false -> version r = current_version ->
     release_color current_version r = color_cyan) /\
  (is_prerelease r = false -> Semver.parse (version r) = None ->
     version r <> current_version -> release_color current_version r = color_white).
Proof.
  unfold release_color. split; [|split].
  - intros ->. reflexivity.
  - intros -> <-. rewrite (proj1 (proj2 (is_newer_version_strict _ (version r)))).
    rewrite String.eqb_refl. reflexivity.
  - intros -> Hp Hne.
    rewrite (proj1 (is_newer_version_strict _ current_version) (or_introl Hp)).
    apply String.eqb_neq in Hne. rewrite Hne. reflexivity.
Qed.

Lemma release_color_cases_witness :
  is_prerelease (release_of_version "0.27.0") = false /\
  version (release_of_version "0.27.0") = "0.27.0" /\
  release_color "0.27.0" (release_of_version "0.27.0") = color_cyan.
Proof.
  split; [reflexivity|]. split; [reflexivity|].
  exact (proj1 (proj2 (release_color_cases "0.27.0" (release_of_version "0.27.0")))
           eq_refl eq_refl).
Defined.

(* ================================================================== *)
(** * Usage-limit tracking *)

Module LimitFacts.
Import Limit.

Lemma utf8_valid_ascii s fuel :
  (String.length s < fuel)%nat -> Semver.all_chars (PathM.byte_in 0 127) s = true ->
  PathM.utf8_valid_fuel fuel s = true.
Proof.
  revert fuel. induction s as [|c s IH]; intros [|fuel] Hl Ha; simpl in *;
    try lia; try reflexivity.
  apply andb_prop in Ha as [Hc Hs]. rewrite Hc.
  apply IH; [lia|exact Hs].
Qed.

Lemma all_chars_app f a b :
  Semver.all_chars f (a +:+ b) = Semver.all_chars f a && Semver.all_chars f b.
Proof.
  induction a as [|c a IH]; [reflexivity|]. simpl. rewrite IH. apply andb_assoc.
Qed.

Lemma digit_ascii n : (PathM.byte_in 0 127) (Ascii.ascii_of_N (48 + n mod 10)) = true.
Proof.
  assert (Hm : (n mod 10 < 10)%N) by (apply N.mod_lt; discriminate).
  destruct (n mod 10)%N as [|p]; [reflexivity|].
  assert (Hp : p = 1%positive \/ p = 2%positive \/ p = 3%positive \/ p = 4%positive \/
               p = 5%positive \/ p = 6%positive \/ p = 7%positive \/ p = 8%positive \/
               p = 9%positive) by lia.
  repeat destruct Hp as [-> | Hp]; [reflexivity..|subst; reflexivity].
Qed.

Lemma decimal_aux_ascii fuel n acc :
  Semver.all_chars (PathM.byte_in 0 127) acc = true ->
  Semver.all_chars (PathM.byte_in 0 127) (decimal_aux fuel n acc) = true.
Proof.
  revert n acc. induction fuel as [|fuel IH]; intros n acc Ha; [exact Ha|].
  simpl. assert (H : Semver.all_chars (PathM.byte_in 0 127)
                       (String (Ascii.ascii_of_N (48 + n mod 10)) acc) = true).
  { simpl. rewrite digit_ascii. exact Ha. }
  destruct (n <? 10)%N; [exact H|]. apply IH. exact H.
Qed.

Lemma to_json_utf8 st :
  PathM.utf8_valid_fuel (S (String.length (to_json st))) (to_json st) = true.
Proof.
  apply utf8_valid_ascii; [lia|].
  unfold to_json. rewrite !all_chars_app.
  unfold u64_to_decimal. rewrite decimal_aux_ascii; reflexivity.
Qed.

Lemma read_after_write env t w h :
  stat_fails env (limit_file t) = false ->
  read_fails env (limit_file t) = false ->
  from_json env (to_json (mkLimitState h)) = Some (mkLimitState h) ->
  read_limit_state env t (mkLWorld (<[limit_file t := to_json (mkLimitState h)]> (lfiles w)))
    = inr (Some (mkLimitState h)).
Proof.
  intros Hs Hr Hj. unfold read_limit_state, path_exists. cbn [lfiles].
  rewrite Hs, lookup_insert_eq. cbn [negb andb].
  rewrite Hr, to_json_utf8. cbn [negb orb].
  rewrite Hj. reflexivity.
Qed.

Lemma should_retry_state env t w now h :
  read_limit_state env t w = inr (Some (mkLimitState h)) ->
  (h + LIMIT_RETRY_DELAY_SECS < u64_modulus)%N ->
  should_retry_chatgpt env t now w =
    Some (h + LIMIT_RETRY_DELAY_SECS <=? match now with Some s => s | None => 0 end)%N.
Proof.
  intros Hs Hh. unfold should_retry_chatgpt. rewrite Hs. cbn [hit_at].
  unfold u64_add. replace (u64_modulus <=? h + LIMIT_RETRY_DELAY_SECS)%N with false
    by (symmetry; apply N.leb_gt; exact Hh).
  rewrite andb_false_r, N.mod_small by exact Hh. reflexivity.
Qed.

Lemma should_retry_no_state env t w now :
  (forall st, read_limit_state env t w <> inr (Some st)) ->
  should_retry_chatgpt env t now w = Some true.
Proof.
  intros H. unfold should_retry_chatgpt.
  destruct (read_limit_state env t w) as [e|[st|]]; try reflexivity.
  exfalso. exact (H st eq_refl).
Qed.

Lemma record_ok env t now w w' :
  record_limit_hit env t now w = (w', inr tt) ->
  exists secs, now = Some secs /\ lwrite_fault env (limit_file t) = None /\
    w' = mkLWorld (<[limit_file t := to_json (mkLimitState secs)]> (lfiles w)).
Proof.
  unfold record_limit_hit. destruct now as [secs|]; [|discriminate].
  destruct (lwrite_fault env (limit_file t)) as [[|n]|]; try discriminate.
  intros [= <-]. exists secs. auto.
Qed.

Lemma clear_ok_no_state env t w w' :
  clear_limit env t w = (w', inr tt) ->
  path_exists env (limit_file t) w' = false /\
  (path_exists env (limit_file t) w = false -> w' = w).
Proof.
  unfold clear_limit. destruct (path_exists env (limit_file t) w) eqn:E.
  - destruct (lremove_fails env (limit_file t)); [discriminate|].
    intros [= <-]. split; [|discriminate].
    unfold path_exists. cbn [lfiles]. rewrite lookup_delete_eq. apply andb_false_r.
  - intros [= <-]. split; [exact E|reflexivity].
Qed.

Lemma read_no_file env t w :
  path_exists env (limit_file t) w = false -> read_limit_state env t w = inr None.
Proof. intros H. unfold read_limit_state. rewrite H. reflexivity. Qed.

End LimitFacts.

(** [should_retry_chatgpt] fails open: when the limit file does not exist
    (or cannot be stat'ed), cannot be read, is not UTF-8, or does not parse,
    a retry is allowed and no limit is active, whatever the clock says. *)
Theorem should_retry_chatgpt_fail_open (env : Limit.LEnv) (t : Limit.LimitTracker)
    (now : option N) (w : Limit.LWorld) :
  (Limit.path_exists env (Limit.limit_file t) w = false ->
     Limit.should_retry_chatgpt env t now w = Some true /\
     Limit.has_active_limit env t now w = Some false) /\
  (forall content,
     Limit.lfiles w !! Limit.limit_file t = Some content ->
     (Limit.read_fails env (Limit.limit_file t) = true \/
      PathM.utf8_valid_fuel (S (String.length content)) content = false \/
      Limit.from_json env content = None) ->
     Limit.should_retry_chatgpt env t now w = Some true /\
     Limit.has_active_limit env t now w = Some false).
Proof.
  assert (Hfin : Limit.should_retry_chatgpt env t now w = Some true ->
                 Limit.should_retry_chatgpt env t now w = Some true /\
                 Limit.has_active_limit env t now w = Some false).
  { intros H. split; [exact H|]. unfold Limit.has_active_limit. rewrite H. reflexivity. }
  split.
  - intros He. apply Hfin, LimitFacts.should_retry_no_state.
    intros st. rewrite (LimitFacts.read_no_file env t w He). discriminate.
  - intros content Hc Hbad. apply Hfin, LimitFacts.should_retry_no_state.
    intros st. unfold Limit.read_limit_state.
    destruct (Limit.path_exists env (Limit.limit_file t) w); [|discriminate].
    rewrite Hc. cbn [negb].
    destruct Hbad as [-> | [-> | ->]]; cbn [orb negb];
      [discriminate|rewrite orb_true_r; discriminate|].
    destruct (_ || _); discriminate.
Qed.

Lemma should_retry_chatgpt_fail_open_witness :
  Limit.path_exists (Limit.sample_lenv true) (Limit.limit_file (Limit.new "/home/u/.codex"))
    Limit.empty_lworld = false /\
  Limit.should_retry_chatgpt (Limit.sample_lenv true) (Limit.new "/home/u/.codex")
    (Some 1700000000%N) Limit.empty_lworld = Some true.
Proof.
  assert (H : Limit.path_exists (Limit.sample_lenv true)
                (Limit.limit_file (Limit.new "/home/u/.codex")) Limit.empty_lworld = false)
    by (vm_compute; reflexivity).
  split; [exact H|].
  exact (proj1 (proj1 (should_retry_chatgpt_fail_open (Limit.sample_lenv true)
    (Limit.new "/home/u/.codex") (Some 1700000000%N) Limit.empty_lworld) H)).
Defined.

(** After [record_limit_hit] succeeds at time [t0], the limit file holds the
    JSON record of [t0], replacing any earlier record; [should_retry_chatgpt]
    then refuses a retry until [t0] plus five hours and allows it from then
    on, a clock before the epoch counting as time 0. This needs the file to
    be readable, [serde_json] to read back what it wrote, and [t0] plus five
    hours to fit in a [u64]. *)
Theorem record_limit_hit_round_trip (env : Limit.LEnv) (t : Limit.LimitTracker)
    (t0 : N) (w w' : Limit.LWorld) (now : option N)
    (Hrec : Limit.record_limit_hit env t (Some t0) w = (w', inr tt))
    (Hstat : Limit.stat_fails env (Limit.limit_file t) = false)
    (Hread : Limit.read_fails env (Limit.limit_file t) = false)
    (Hjson : Limit.from_json env (Limit.to_json (Limit.mkLimitState t0)) =
             Some (Limit.mkLimitState t0))
    (Hrange : (t0 + Limit.LIMIT_RETRY_DELAY_SECS < Limit.u64_modulus)%N) :
  Limit.lfiles w' =
    <[Limit.limit_file t := Limit.to_json (Limit.mkLimitState t0)]> (Limit.lfiles w) /\
  Limit.should_retry_chatgpt env t now w' =
    Some (t0 + Limit.LIMIT_RETRY_DELAY_SECS <=?
          match now with Some s => s | None => 0 end)%N /\
  Limit.has_active_limit env t now w' =
    Some (negb (t0 + Limit.LIMIT_RETRY_DELAY_SECS <=?
                match now with Some s => s | None => 0 end)%N).
Proof.
  destruct (LimitFacts.record_ok env t (Some t0) w w' Hrec) as (secs & [= <-] & _ & ->).
  assert (Hs : Limit.should_retry_chatgpt env t now
     (Limit.mkLWorld (<[Limit.limit_file t := Limit.to_json (Limit.mkLimitState t0)]>
                        (Limit.lfiles w))) =
     Some (t0 + Limit.LIMIT_RETRY_DELAY_SECS <=?
           match now with Some s => s | None => 0 end)%N).
  { apply LimitFacts.should_retry_state; [|exact Hrange].
    apply LimitFacts.read_after_write; assumption. }
  split; [reflexivity|]. split; [exact Hs|].
  unfold Limit.has_active_limit. rewrite Hs. reflexivity.
Qed.

Lemma record_limit_hit_round_trip_witness :
  Limit.record_limit_hit (Limit.sample_lenv true) (Limit.new "/home/u/.codex")
    (Some 1700000000%N) Limit.empty_lworld =
    (Limit.mkLWorld {[ "/home/u/.codex/limit" :=
                         Limit.to_json (Limit.mkLimitState 1700000000) ]}, inr tt) /\
  Limit.should_retry_chatgpt (Limit.sample_lenv true) (Limit.new "/home/u/.codex")
    (Some 1700017999%N)
    (Limit.mkLWorld {[ "/home/u/.codex/limit" :=
                         Limit.to_json (Limit.mkLimitState 1700000000) ]}) =
    Some (1700000000 + Limit.LIMIT_RETRY_DELAY_SECS <=? 1700017999)%N.
Proof.
  assert (Hrec : Limit.record_limit_hit (Limit.sample_lenv true)
    (Limit.new "/home/u/.codex") (Some 1700000000%N) Limit.empty_lworld =
    (Limit.mkLWorld {[ "/home/u/.codex/limit" :=
                         Limit.to_json (Limit.mkLimitState 1700000000) ]}, inr tt))
    by (vm_compute; reflexivity).
  assert (Hj : Limit.from_json (Limit.sample_lenv true)
                 (Limit.to_json (Limit.mkLimitState 1700000000)) =
               Some (Limit.mkLimitState 1700000000)) by (vm_compute; reflexivity).
  assert (Hr : (1700000000 + Limit.LIMIT_RETRY_DELAY_SECS < Limit.u64_modulus)%N)
    by (vm_compute; reflexivity).
  split; [exact Hrec|].
  exact (proj1 (proj2 (record_limit_hit_round_trip (Limit.sample_lenv true)
    (Limit.new "/home/u/.codex") 1700000000 _ _ (Some 1700017999%N)
    Hrec eq_refl eq_refl Hj Hr))).
Defined.

(** After [clear_limit] succeeds, a retry is allowed and no limit is active
    at any time; when the limit file did not exist, [clear_limit] succeeds
    without changing anything. *)
Theorem clear_limit_allows_retry (env : Limit.LEnv) (t : Limit.LimitTracker)
    (w w' : Limit.LWorld) (now : option N)
    (Hc : Limit.clear_limit env t w = (w', inr tt)) :
  Limit.should_retry_chatgpt env t now w' = Some true /\
  Limit.has_active_limit env t now w' = Some false /\
  (Limit.path_exists env (Limit.limit_file t) w = false -> w' = w).
Proof.
  destruct (LimitFacts.clear_ok_no_state env t w w' Hc) as [He Hsame].
  assert (Hs : Limit.should_retry_chatgpt env t now w' = Some true).
  { apply LimitFacts.should_retry_no_state. intros st.
    rewrite (LimitFacts.read_no_file env t w' He). discriminate. }
  split; [exact Hs|]. split; [|exact Hsame].
  unfold Limit.has_active_limit. rewrite Hs. reflexivity.
Qed.

Lemma clear_limit_allows_retry_witness :
  Limit.clear_limit (Limit.sample_lenv true) (Limit.new "/home/u/.codex")
    (Limit.mkLWorld {[ "/home/u/.codex/limit" :=
                         Limit.to_json (Limit.mkLimitState 1700000000) ]}) =
    (Limit.mkLWorld ∅, inr tt) /\
  Limit.should_retry_chatgpt (Limit.sample_lenv true) (Limit.new "/home/u/.codex")
    (Some 1700000001%N) (Limit.mkLWorld ∅) = Some true.
Proof.
  assert (Hc : Limit.clear_limit (Limit.sample_lenv true) (Limit.new "/home/u/.codex")
    (Limit.mkLWorld {[ "/home/u/.codex/limit" :=
                         Limit.to_json (Limit.mkLimitState 1700000000) ]}) =
    (Limit.mkLWorld ∅, inr tt)) by (vm_compute; reflexivity).
  split; [exact Hc|].
  exact (proj1 (clear_limit_allows_retry _ _ _ _ (Some 1700000001%N) Hc)).
Defined.

(** A recorded [hit_at] within five hours of [u64::MAX] makes
    [hit_at + LIMIT_RETRY_DELAY] overflow: a build with overflow checks
    panics in [should_retry_chatgpt], and a build without them wraps around,
    so that a retry is allowed at every time from five hours after the
    epoch on. *)
Theorem should_retry_chatgpt_overflow (env : Limit.LEnv) (t : Limit.LimitTracker)
    (w : Limit.LWorld) (h : N)
    (Hstate : Limit.read_limit_state env t w = inr (Some (Limit.mkLimitState h)))
    (Hh : (h < Limit.u64_modulus)%N)
    (Hbig : (Limit.u64_modulus <= h + Limit.LIMIT_RETRY_DELAY_SECS)%N) :
  (Limit.overflow_checks env = true ->
     forall now, Limit.should_retry_chatgpt env t now w = None) /\
  (Limit.overflow_checks env = false ->
     forall secs, (Limit.LIMIT_RETRY_DELAY_SECS <= secs)%N ->
     Limit.should_retry_chatgpt env t (Some secs) w = Some true).
Proof.
  unfold Limit.should_retry_chatgpt. rewrite Hstate. cbn [Limit.hit_at].
  unfold Limit.u64_add.
  replace (Limit.u64_modulus <=? h + Limit.LIMIT_RETRY_DELAY_SECS)%N with true
    by (symmetry; apply N.leb_le; exact Hbig).
  split.
  - intros -> now. reflexivity.
  - intros -> secs Hs. cbn [andb]. f_equal. apply N.leb_le.
    unfold Limit.u64_modulus, Limit.LIMIT_RETRY_DELAY_SECS in *.
    rewrite <- (N.mod_unique (h + 5 * 60 * 60) (2 ^ 64) 1 (h + 5 * 60 * 60 - 2 ^ 64));
      lia.
Qed.

Lemma should_retry_chatgpt_overflow_witness :
  Limit.read_limit_state (Limit.sample_lenv true) (Limit.new "/home/u/.codex")
    (Limit.mkLWorld {[ "/home/u/.codex/limit" :=
                         Limit.to_json (Limit.mkLimitState Semver.u64_max) ]}) =
    inr (Some (Limit.mkLimitState Semver.u64_max)) /\
  Limit.should_retry_chatgpt (Limit.sample_lenv true) (Limit.new "/home/u/.codex")
    (Some 1700000000%N)
    (Limit.mkLWorld {[ "/home/u/.codex/limit" :=
                         Limit.to_json (Limit.mkLimitState Semver.u64_max) ]}) = None.
Proof.
  assert (Hs : Limit.read_limit_state (Limit.sample_lenv true) (Limit.new "/home/u/.codex")
    (Limit.mkLWorld {[ "/home/u/.codex/limit" :=
                         Limit.to_json (Limit.mkLimitState Semver.u64_max) ]}) =
    inr (Some (Limit.mkLimitState Semver.u64_max))) by (vm_compute; reflexivity).
  assert (Hh : (Semver.u64_max < Limit.u64_modulus)%N) by (vm_compute; reflexivity).
  assert (Hb : (Limit.u64_modulus <= Semver.u64_max + Limit.LIMIT_RETRY_DELAY_SECS)%N)
    by (vm_compute; discriminate).
  split; [exact Hs|].
  exact (proj1 (should_retry_chatgpt_overflow _ _ _ _ Hs Hh Hb) eq_refl _).
Defined.

(** The limit-tracker steps of the auth-switching integration test compose
    as the test asserts: with no limit file in the codex home, a retry is
    allowed; after a successful [record_limit_hit] at [t0], a check before
    [t0] plus five hours finds an active limit; [clear_limit] then succeeds,
    restores the file system as it was, and a retry is allowed again. *)
Theorem limit_tracker_switching_scenario (env : Limit.LEnv) (home : string)
    (w : Limit.LWorld) (t0 now2 : N) (now1 now3 : option N)
    (Hnofile : Limit.lfiles w !! Limit.limit_file (Limit.new home) = None)
    (Hstat : Limit.stat_fails env (Limit.limit_file (Limit.new home)) = false)
    (Hread : Limit.read_fails env (Limit.limit_file (Limit.new home)) = false)
    (Hwrite : Limit.lwrite_fault env (Limit.limit_file (Limit.new home)) = None)
    (Hrm : Limit.lremove_fails env (Limit.limit_file (Limit.new home)) = false)
    (Hjson : Limit.from_json env (Limit.to_json (Limit.mkLimitState t0)) =
             Some (Limit.mkLimitState t0))
    (Hrange : (t0 + Limit.LIMIT_RETRY_DELAY_SECS < Limit.u64_modulus)%N)
    (Hnow2 : (now2 < t0 + Limit.LIMIT_RETRY_DELAY_SECS)%N) :
  Limit.should_retry_chatgpt env (Limit.new home) now1 w = Some true /\
  Limit.has_active_limit env (Limit.new home) now1 w = Some false /\
  exists w1,
    Limit.record_limit_hit env (Limit.new home) (Some t0) w = (w1, inr tt) /\
    Limit.should_retry_chatgpt env (Limit.new home) (Some now2) w1 = Some false /\
    Limit.has_active_limit env (Limit.new home) (Some now2) w1 = Some true /\
    exists w2,
      Limit.clear_limit env (Limit.new home) w1 = (w2, inr tt) /\
      Limit.lfiles w2 = Limit.lfiles w /\
      Limit.should_retry_chatgpt env (Limit.new home) now3 w2 = Some true /\
      Limit.has_active_limit env (Limit.new home) now3 w2 = Some false.
Proof.
  set (t := Limit.new home) in *.
  set (f := Limit.limit_file t) in *.
  assert (Hno : forall now w0, Limit.path_exists env f w0 = false ->
            Limit.should_retry_chatgpt env t now w0 = Some true /\
            Limit.has_active_limit env t now w0 = Some false).
  { intros now w0 He.
    assert (Hs : Limit.should_retry_chatgpt env t now w0 = Some true).
    { apply LimitFacts.should_retry_no_state. intros st.
      rewrite (LimitFacts.read_no_file env t w0 He). discriminate. }
    split; [exact Hs|]. unfold Limit.has_active_limit. rewrite Hs. reflexivity. }
  split; [|split].
  - apply Hno. unfold Limit.path_exists. fold f. rewrite Hnofile. apply andb_false_r.
  - apply Hno. unfold Limit.path_exists. fold f. rewrite Hnofile. apply andb_false_r.
  - exists (Limit.mkLWorld (<[f := Limit.to_json (Limit.mkLimitState t0)]> (Limit.lfiles w))).
    assert (Hs2 : Limit.should_retry_chatgpt env t (Some now2)
       (Limit.mkLWorld (<[f := Limit.to_json (Limit.mkLimitState t0)]> (Limit.lfiles w)))
       = Some false).
    { rewrite (LimitFacts.should_retry_state _ _ _ _ t0); [|
        apply LimitFacts.read_after_write; assumption|exact Hrange].
      f_equal. apply N.leb_gt. exact Hnow2. }
    split; [unfold Limit.record_limit_hit; fold f; rewrite Hwrite; reflexivity|].
    split; [exact Hs2|].
    split; [unfold Limit.has_active_limit; rewrite Hs2; reflexivity|].
    exists (Limit.mkLWorld (Limit.lfiles w)).
    assert (Hc : Limit.clear_limit env t
       (Limit.mkLWorld (<[f := Limit.to_json (Limit.mkLimitState t0)]> (Limit.lfiles w)))
       = (Limit.mkLWorld (Limit.lfiles w), inr tt)).
    { unfold Limit.clear_limit, Limit.path_exists. fold f. cbn [Limit.lfiles].
      rewrite Hstat, lookup_insert_eq, Hrm. cbn [negb andb].
      rewrite delete_insert_id by exact Hnofile. reflexivity. }
    split; [exact Hc|]. split; [reflexivity|].
    apply Hno. unfold Limit.path_exists. fold f. cbn [Limit.lfiles].
    rewrite Hnofile. apply andb_false_r.
Qed.

Lemma limit_tracker_switching_scenario_witness :
  exists w1 w2,
    Limit.record_limit_hit (Limit.sample_lenv true) (Limit.new "/home/u/.codex")
      (Some 1700000000%N) Limit.empty_lworld = (w1, inr tt) /\
    Limit.has_active_limit (Limit.sample_lenv true) (Limit.new "/home/u/.codex")
      (Some 1700000060%N) w1 = Some true /\
    Limit.clear_limit (Limit.sample_lenv true) (Limit.new "/home/u/.codex") w1 =
      (w2, inr tt) /\
    Limit.should_retry_chatgpt (Limit.sample_lenv true) (Limit.new "/home/u/.codex")
      (Some 1700000120%N) w2 = Some true.
Proof.
  assert (Hj : Limit.from_json (Limit.sample_lenv true)
                 (Limit.to_json (Limit.mkLimitState 1700000000)) =
               Some (Limit.mkLimitState 1700000000)) by (vm_compute; reflexivity).
  assert (Hr : (1700000000 + Limit.LIMIT_RETRY_DELAY_SECS < Limit.u64_modulus)%N)
    by (vm_compute; reflexivity).
  assert (Hn : (1700000060 < 1700000000 + Limit.LIMIT_RETRY_DELAY_SECS)%N)
    by (vm_compute; reflexivity).
  destruct (limit_tracker_switching_scenario (Limit.sample_lenv true) "/home/u/.codex"
    Limit.empty_lworld 1700000000 1700000060 None (Some 1700000120%N)
    eq_refl eq_refl eq_refl eq_refl eq_refl Hj Hr Hn)
    as (_ & _ & w1 & H1 & _ & H2 & w2 & H3 & _ & H4 & _).
  exists w1, w2. split; [exact H1|]. split; [exact H2|]. split; [exact H3|]. exact H4.
Defined.

(* ------------------------------------------------------------------ *)
(** ** Replacement on Windows *)

(** A successful run on Windows writes the temporary file, renames the
    executable to its [.old] backup, renames the temporary file onto the
    executable's path, and then tries to remove the backup; the run succeeds
    whether or not that removal works, and when it fails the previous
    executable lingers at the backup path. *)
Theorem download_and_replace_binary_windows_success
    (env : Env) (asset : GitHubAsset) (target_triple : string) (w : World)
    (exe : string)
    (Hplat : platform env = Windows)
    (Hexe : current_exe env = Some exe)
    (Htmp : PathM.with_extension exe "tmp" <> exe)
    (Hold : PathM.with_extension exe "old" <> exe)
    (Hto : PathM.with_extension exe "tmp" <> PathM.with_extension exe "old")
    (Hok : snd (download_and_replace_binary env asset target_triple w) = inr tt) :
  let temp := PathM.with_extension exe "tmp" in
  let backup := PathM.with_extension exe "old" in
  let w' := fst (download_and_replace_binary env asset target_triple w) in
  fs_log w' =
    (fs_log w ++ [FsWrite temp; FsRename exe backup; FsRename temp exe] ++
     (if remove_fails env backup then [] else [FsRemove backup]))%list /\
  files w' !! temp = None /\
  (exists f, files w' !! exe = Some f) /\
  (exists f0, files w !! exe = Some f0 /\
     files w' !! backup = (if remove_fails env backup then Some f0 else None)).
Proof.
  intros temp backup w'. subst w'.
  change (PathM.with_extension exe "tmp") with temp in Htmp, Hto.
  change (PathM.with_extension exe "old") with backup in Hold, Hto.
  destruct (download_and_replace_binary env asset target_triple w) as [w' r] eqn:Hrun.
  cbn [snd] in Hok. subst r. cbn [fst].
  unfold download_and_replace_binary in Hrun. rewrite !bind_run in Hrun.
  cbn [lift opt_or] in Hrun.
  destruct (download env (browser_download_url asset)) as [bs|]; [|discriminate Hrun].
  rewrite Hexe in Hrun. unfold opt_or, lift in Hrun. cbn beta iota in Hrun.
  rewrite ?bind_run in Hrun. fold temp in Hrun.
  pose proof (Frames.frames_extract_and_write env (fun op => op = FsWrite temp)
                asset bs temp target_triple eq_refl w) as HS.
  destruct (extract_and_write env asset bs temp target_triple w) as [w1 [e1|u1]] eqn:E1;
    [discriminate Hrun|].
  apply extract_and_write_inr in E1. cbn [fst] in HS.
  assert (Hx : files w1 !! exe = files w !! exe).
  { apply (steps_untouched _ _ _ _ HS). intros op ->. simpl.
    apply String.eqb_neq. congruence. }
  unfold make_executable, replace_executable in Hrun. rewrite Hplat in Hrun.
  fold backup in Hrun. unfold ret in Hrun at 1. rewrite !bind_run in Hrun.
  unfold fs_rename in Hrun at 1.
  destruct (rename_fails env exe backup); [discriminate Hrun|].
  rewrite Hx in Hrun. destruct (files w !! exe) as [f0|] eqn:F0; [|discriminate Hrun].
  replace (String.eqb exe backup) with false in Hrun
    by (symmetry; apply String.eqb_neq; congruence).
  unfold fs_rename in Hrun. destruct (rename_fails env temp exe); [discriminate Hrun|].
  cbn [files log_op] in Hrun.
  rewrite bind_run in Hrun. cbn beta in Hrun. unfold log_op in Hrun.
  cbn [files fs_log] in Hrun.
  rewrite lookup_insert_ne, lookup_delete_ne in Hrun by congruence.
  destruct (files w1 !! temp) as [f1|] eqn:F1; [|discriminate Hrun].
  replace (String.eqb temp exe) with false in Hrun
    by (symmetry; apply String.eqb_neq; congruence).
  unfold try_, fs_remove_file in Hrun. cbn [files log_op fs_log] in Hrun.
  destruct (remove_fails env backup) eqn:Er.
  - injection Hrun as <-. cbn [files fs_log].
    split; [rewrite E1, <- !app_assoc; reflexivity|].
    split; [rewrite lookup_insert_ne, lookup_delete_eq by congruence; reflexivity|].
    split; [eexists; apply lookup_insert_eq|].
    exists f0. split; [reflexivity|].
    rewrite lookup_insert_ne, lookup_delete_ne, lookup_insert_eq by congruence.
    reflexivity.
  - rewrite bind_run in Hrun. cbn [files] in Hrun.
    rewrite lookup_insert_ne, lookup_delete_ne, lookup_insert_eq in Hrun by congruence.
    injection Hrun as <-. unfold log_op. cbn [files fs_log].
    split; [rewrite E1, <- !app_assoc; reflexivity|].
    split; [rewrite lookup_delete_ne, lookup_insert_ne, lookup_delete_eq by congruence;
            reflexivity|].
    split; [eexists; rewrite lookup_delete_ne by congruence; apply lookup_insert_eq|].
    exists f0. split; [reflexivity|]. apply lookup_delete_eq.
Qed.

Lemma download_and_replace_binary_windows_success_witness :
  let env := mkEnv Windows (fun _ => Some [Byte.x01]) (Some "/opt/codex/codex.exe")
               (fun b => Some b) (fun _ => []) (fun _ => None) (fun _ => None)
               (fun _ => false) (fun _ => false) (fun _ _ => false) (fun _ => true) in
  snd (download_and_replace_binary env zst_asset "x86_64-pc-windows-msvc"
         (sample_world "/opt/codex/codex.exe")) = inr tt /\
  files (fst (download_and_replace_binary env zst_asset "x86_64-pc-windows-msvc"
                (sample_world "/opt/codex/codex.exe"))) !! "/opt/codex/codex.old" =
    (if remove_fails env "/opt/codex/codex.old" then Some (mkFile [Byte.x00] mode_0o755)
     else None).
Proof.
  intros env.
  assert (Hok : snd (download_and_replace_binary env zst_asset "x86_64-pc-windows-msvc"
         (sample_world "/opt/codex/codex.exe")) = inr tt) by (vm_compute; reflexivity).
  assert (H1 : PathM.with_extension "/opt/codex/codex.exe" "tmp" <> "/opt/codex/codex.exe")
    by (vm_compute; intros H; discriminate H).
  assert (H2 : PathM.with_extension "/opt/codex/codex.exe" "old" <> "/opt/codex/codex.exe")
    by (vm_compute; intros H; discriminate H).
  assert (H3 : PathM.with_extension "/opt/codex/codex.exe" "tmp" <>
               PathM.with_extension "/opt/codex/codex.exe" "old")
    by (vm_compute; intros H; discriminate H).
  split; [exact Hok|].
  destruct (download_and_replace_binary_windows_success env zst_asset
    "x86_64-pc-windows-msvc" (sample_world "/opt/codex/codex.exe") "/opt/codex/codex.exe"
    eq_refl eq_refl H1 H2 H3 Hok) as (_ & _ & _ & f0 & Hf0 & Hb).
  vm_compute in Hf0. injection Hf0 as <-. exact Hb.
Defined.
